(** * Tidal and spin evolution forces of reboundx ([src/tides_spin.c])

    A shallow embedding of [tides_spin.c] and the properties of its force
    kernel, force accumulator, spin derivative function, spin state
    synchronizer, potential evaluator and sigma helpers.

    Conventions of the embedding.
    - A C [double] is a real number ([R]): the properties are those of the
      formulas in exact arithmetic.  [x != 0.0] is [Rneqb x 0].  A division
      by zero, which gives an infinity or a NaN in C, is outside the model
      ([x / 0] is [0] in [R]): an equation between the code and a formula
      has the same divisions on both sides, and the properties of the
      torque that are not of this kind assume positive masses, distinct
      positions and a nonzero [moi].
    - An array is a [list]; [particles[i]] is stdpp's lookup.  Reading or
      writing a [double] array outside its bounds, and dereferencing the NULL
      result of [rebx_get_param], is undefined behaviour: [None] in the
      [option] monad.
    - [exit] ends the run: the [Exited] outcome keeps the exit status, the
      reported messages and the state reached so far.
    - Loop counters and array lengths ([int], [unsigned int]) are [nat]:
      they are bounded by the number of particles, and their wrap-around at
      2^31 or 2^32 is outside the model.
    - A pointer the code dereferences without a test ([ode->ref], the
      [particles] array) is modelled by what it points to; two pointers into
      the [particles] array are indices.  [rebx->sim], which
      [rebx_spin_potential] tests against NULL, is an [option], and a
      function that dereferences it when NULL is undefined.  [sim->extras]
      is only handed to the parameter store and plays no part. *)

From Stdlib Require Import Reals Lra Lia.
From stdpp Require Import gmap strings list fin_maps.

Local Open Scope string_scope.
Local Open Scope R_scope.

(** ** Scalars *)

(** [a != b] on doubles. *)
Definition Rneqb (a b : R) : bool := if Req_dec_T a b then false else true.

(** [a == b] on doubles. *)
Definition Reqb (a b : R) : bool := if Req_dec_T a b then true else false.

(** ** [struct reb_vec3d] *)

Module Vec3d.
Record reb_vec3d : Type := mk { x : R; y : R; z : R }.
End Vec3d.
Abbreviation reb_vec3d := Vec3d.reb_vec3d.

(** Vector algebra, used to state the force law. *)
Definition vzero : reb_vec3d := Vec3d.mk 0 0 0.

Definition vadd (a b : reb_vec3d) : reb_vec3d :=
  Vec3d.mk (Vec3d.x a + Vec3d.x b) (Vec3d.y a + Vec3d.y b) (Vec3d.z a + Vec3d.z b).

Definition vsub (a b : reb_vec3d) : reb_vec3d :=
  Vec3d.mk (Vec3d.x a - Vec3d.x b) (Vec3d.y a - Vec3d.y b) (Vec3d.z a - Vec3d.z b).

Definition vscale (c : R) (a : reb_vec3d) : reb_vec3d :=
  Vec3d.mk (c * Vec3d.x a) (c * Vec3d.y a) (c * Vec3d.z a).

Definition vopp (a : reb_vec3d) : reb_vec3d :=
  Vec3d.mk (- Vec3d.x a) (- Vec3d.y a) (- Vec3d.z a).

Definition vdot (a b : reb_vec3d) : R :=
  Vec3d.x a * Vec3d.x b + Vec3d.y a * Vec3d.y b + Vec3d.z a * Vec3d.z b.

Definition vcross (a b : reb_vec3d) : reb_vec3d :=
  Vec3d.mk (Vec3d.y a * Vec3d.z b - Vec3d.z a * Vec3d.y b)
           (Vec3d.z a * Vec3d.x b - Vec3d.x a * Vec3d.z b)
           (Vec3d.x a * Vec3d.y b - Vec3d.y a * Vec3d.x b).

Definition vnorm (a : reb_vec3d) : R := sqrt (vdot a a).

(** ** The parameter store *)

(** Modelled from the spec: the per-body key/value property store of reboundx
    ([rebx_get_param], [rebx_set_param_double]), whose code is not in
    [tides_spin.c]: an existence check with a typed read of a named scalar
    (NULL, here [None], when the name is absent), and a create-or-update
    write.  The keys of this module ([k2], [sigma], [moi], [sx], [sy], [sz])
    all hold doubles. *)
Definition rebx_get_param (ap : gmap string R) (param_name : string) : option R :=
  ap !! param_name.

Definition rebx_set_param_double (ap : gmap string R) (param_name : string)
    (val : R) : gmap string R :=
  <[param_name := val]> ap.

(** ** [struct reb_particle] *)

Record reb_particle : Type := mk_particle {
  x : R; y : R; z : R;
  vx : R; vy : R; vz : R;
  ax : R; ay : R; az : R;
  m : R;
  r : R;
  ap : gmap string R
}.

Definition pos (p : reb_particle) : reb_vec3d := Vec3d.mk (x p) (y p) (z p).
Definition vel (p : reb_particle) : reb_vec3d := Vec3d.mk (vx p) (vy p) (vz p).
Definition acc (p : reb_particle) : reb_vec3d := Vec3d.mk (ax p) (ay p) (az p).

Definition set_ax (v : R) (p : reb_particle) : reb_particle :=
  mk_particle (x p) (y p) (z p) (vx p) (vy p) (vz p) v (ay p) (az p) (m p) (r p) (ap p).
Definition set_ay (v : R) (p : reb_particle) : reb_particle :=
  mk_particle (x p) (y p) (z p) (vx p) (vy p) (vz p) (ax p) v (az p) (m p) (r p) (ap p).
Definition set_az (v : R) (p : reb_particle) : reb_particle :=
  mk_particle (x p) (y p) (z p) (vx p) (vy p) (vz p) (ax p) (ay p) v (m p) (r p) (ap p).
Definition set_ap (a : gmap string R) (p : reb_particle) : reb_particle :=
  mk_particle (x p) (y p) (z p) (vx p) (vy p) (vz p) (ax p) (ay p) (az p) (m p) (r p) a.

(** ** The force kernel *)

Definition rebx_calculate_spin_orbit_accelerations (source target : reb_particle)
    (G k2 sigma sx sy sz : R) : reb_vec3d :=
  let ms := m source in
  let Rs := r source in
  let mt := m target in
  let mtot := ms + mt in
  let mu_ij := ms * mt / mtot in
  let big_a := k2 * (Rs * Rs * Rs * Rs * Rs) in
  (* distance vector FROM j TO i *)
  let dx := x source - x target in
  let dy := y source - y target in
  let dz := z source - z target in
  let d2 := dx * dx + dy * dy + dz * dz in
  let dr := sqrt d2 in
  (* velocity vector: i to j *)
  let dvx := vx source - vx target in
  let dvy := vy source - vy target in
  let dvz := vz source - vz target in
  let tot_force := Vec3d.mk 0 0 0 in
  if Rneqb k2 0 then
    let quad_prefactor := mt * big_a / mu_ij in
    let omega_dot_d := sx * dx + sy * dy + sz * dz in
    let omega_squared := sx * sx + sy * sy + sz * sz in
    let t1 := 5 * omega_dot_d * omega_dot_d / (2 * (dr * dr * dr * dr * dr * dr * dr)) in
    let t2 := omega_squared / (2 * (dr * dr * dr * dr * dr)) in
    let t3 := omega_dot_d / (dr * dr * dr * dr * dr) in
    let t4 := 6 * G * mt / (dr * dr * dr * dr * dr * dr * dr * dr) in
    let tot_force :=
      Vec3d.mk (quad_prefactor * ((t1 - t2 - t4) * dx - (t3 * sx)))
               (quad_prefactor * ((t1 - t2 - t4) * dy - (t3 * sy)))
               (quad_prefactor * ((t1 - t2 - t4) * dz - (t3 * sz))) in
    if Rneqb sigma 0 then
      let d_dot_vel := dx * dvx + dy * dvy + dz * dvz in
      (* first vector *)
      let vec1_x := 3 * d_dot_vel * dx in
      let vec1_y := 3 * d_dot_vel * dy in
      let vec1_z := 3 * d_dot_vel * dz in
      (* h vector *)
      let hx := dy * dvz - dz * dvy in
      let hy := dz * dvx - dx * dvz in
      let hz := dx * dvy - dy * dvx in
      (* h - r^2 Omega *)
      let comp_2_x := hx - d2 * sx in
      let comp_2_y := hy - d2 * sy in
      let comp_2_z := hz - d2 * sz in
      (* second vector *)
      let vec2_x := comp_2_y * dz - comp_2_z * dy in
      let vec2_y := comp_2_z * dx - comp_2_x * dz in
      let vec2_z := comp_2_x * dy - comp_2_y * dx in
      let prefactor :=
        (-9 * sigma * mt * mt * big_a * big_a) / (2 * mu_ij * (d2 * d2 * d2 * d2 * d2)) in
      Vec3d.mk (Vec3d.x tot_force + prefactor * (vec1_x + vec2_x))
               (Vec3d.y tot_force + prefactor * (vec1_y + vec2_y))
               (Vec3d.z tot_force + prefactor * (vec1_z + vec2_z))
    else tot_force
  else tot_force.

(** The force law in vector form: the separation [d] (source minus target),
    the relative velocity [v], the spin [Omega], the distance [rr = |d|], the
    reduced mass and the response amplitude [k2 R^5]. *)
Definition reduced_mass (mi mj : R) : R := mi * mj / (mi + mj).

Definition quadrupole_term (source target : reb_particle) (G k2 : R)
    (Omega : reb_vec3d) : reb_vec3d :=
  let d := vsub (pos source) (pos target) in
  let rr := vnorm d in
  let mu := reduced_mass (m source) (m target) in
  let A := k2 * r source ^ 5 in
  vscale (m target * A / mu)
    (vsub (vscale (5 * vdot Omega d ^ 2 / (2 * rr ^ 7)
                   - vdot Omega Omega / (2 * rr ^ 5)
                   - 6 * G * m target / rr ^ 8) d)
          (vscale (vdot Omega d / rr ^ 5) Omega)).

Definition dissipative_term (source target : reb_particle) (k2 sigma : R)
    (Omega : reb_vec3d) : reb_vec3d :=
  let d := vsub (pos source) (pos target) in
  let v := vsub (vel source) (vel target) in
  let rr := vnorm d in
  let h := vcross d v in
  let mu := reduced_mass (m source) (m target) in
  let A := k2 * r source ^ 5 in
  vscale (-9 * sigma * m target ^ 2 * A ^ 2 / (2 * mu * rr ^ 10))
    (vadd (vscale (3 * vdot d v) d)
          (vcross (vsub h (vscale (rr ^ 2) Omega)) d)).

(** The two contributions to the force the kernel returns: with [sigma = 0]
    only the quadrupole block runs, and the dissipative block adds the rest. *)
Definition quadrupole_contribution (source target : reb_particle)
    (G k2 sx sy sz : R) : reb_vec3d :=
  rebx_calculate_spin_orbit_accelerations source target G k2 0 sx sy sz.

Definition dissipative_contribution (source target : reb_particle)
    (G k2 sigma sx sy sz : R) : reb_vec3d :=
  vsub (rebx_calculate_spin_orbit_accelerations source target G k2 sigma sx sy sz)
       (rebx_calculate_spin_orbit_accelerations source target G k2 0 sx sy sz).

(** The part of the dissipative term that does not depend on the velocities:
    the prefactor times [(- rr^2 Omega) x d]. *)
Definition dissipative_spin_part (source target : reb_particle) (k2 sigma : R)
    (Omega : reb_vec3d) : reb_vec3d :=
  let d := vsub (pos source) (pos target) in
  let rr := vnorm d in
  let mu := reduced_mass (m source) (m target) in
  let A := k2 * r source ^ 5 in
  vscale (-9 * sigma * m target ^ 2 * A ^ 2 / (2 * mu * rr ^ 10))
    (vcross (vscale (- rr ^ 2) Omega) d).

(** Two states of a body that differ at most in the velocity. *)
Definition same_but_velocity (p p' : reb_particle) : Prop :=
  pos p' = pos p /\ m p' = m p /\ r p' = r p.

(** ** Messages, outcomes and arrays *)

(** The newline character, with which the non-empty message texts end. *)
Definition newline : string := String (Ascii.ascii_of_nat 10) EmptyString.

(** What [reb_error], [reb_warning] and [rebx_error] report.  None of them
    ends the run. *)
Inductive message : Type :=
| reb_error (msg : string)
| reb_warning (msg : string)
| rebx_error (msg : string).

(** How a call ends: it returns, or it reaches [exit(status)] after the
    messages [log], in the state [a]. *)
Inductive outcome (A : Type) : Type :=
| Returned (a : A)
| Exited (status : Z) (log : list message) (a : A).
Arguments Returned {A} a.
Arguments Exited {A} status log a.

(** [a[i]], [a[i] = v] and [a[i] += v] on an array of doubles; [None] outside
    the array. *)
Definition array_get (a : list R) (i : nat) : option R := a !! i.

Definition array_set (a : list R) (i : nat) (v : R) : option (list R) :=
  if decide (i < length a)%nat then Some (<[i := v]> a) else None.

Definition array_add (a : list R) (i : nat) (v : R) : option (list R) :=
  old ← a !! i; Some (<[i := old + v]> a).

(** A [for] loop over the indices [l] whose body may be undefined. *)
Fixpoint for_each {A B : Type} (body : A -> B -> option A) (a : A) (l : list B)
    : option A :=
  match l with
  | [] => Some a
  | b :: l' => a' ← body a b; for_each body a' l'
  end.

(** ** [struct reb_ode], [struct reb_simulation], [struct rebx_force],
       [struct rebx_extras] *)

(** The functions this module installs in an ODE. *)
Inductive ode_function : Type :=
| fn_rebx_spin_derivatives
| fn_rebx_spin_sync_pre
| fn_rebx_spin_sync_post.

(** What the untyped back-reference [ref] of an ODE points to. *)
Inductive ode_ref : Type := ref_simulation.

Module Ode.
Record reb_ode : Type := mk {
  length : nat;
  y : list R;
  ref : option ode_ref;
  derivatives : option ode_function;
  pre_timestep : option ode_function;
  post_timestep : option ode_function
}.
End Ode.
Abbreviation reb_ode := Ode.reb_ode.

(** [particles] is the array of the [N] particles of the simulation, of
    which the last [N_var] are variational; [odes] is NULL when empty. *)
Module Sim.
Record reb_simulation : Type := mk {
  G : R;
  N_var : nat;
  particles : list reb_particle;
  odes : list reb_ode
}.
End Sim.
Abbreviation reb_simulation := Sim.reb_simulation.

(** [sim->N - sim->N_var].  Where the C difference is negative the loops up
    to it do not run, as with the truncated difference. *)
Definition N_real (sim : reb_simulation) : nat :=
  (length (Sim.particles sim) - Sim.N_var sim)%nat.

(** The parameters of an effect hold pointers; a pointer to an ODE is its
    index in [sim->odes]. *)
Module Force.
Record rebx_force : Type := mk { ap : gmap string nat }.
End Force.
Abbreviation rebx_force := Force.rebx_force.

Module Extras.
Record rebx_extras : Type := mk { sim : option reb_simulation }.
End Extras.
Abbreviation rebx_extras := Extras.rebx_extras.

(** Modelled from the spec: [rebx_set_param_pointer] of the property store,
    a create-or-update write of a named pointer. *)
Definition rebx_set_param_pointer (ap : gmap string nat) (param_name : string)
    (val : nat) : gmap string nat :=
  <[param_name := val]> ap.

(** Modelled from the spec: [reb_create_ode] of the host integrator, which
    registers a state vector of the given length, with no callback hook and
    no back-reference yet, and returns a pointer to it.  The content of the
    new vector is not specified; it is zero here. *)
Definition reb_create_ode (sim : reb_simulation) (length : nat)
    : reb_simulation * nat :=
  let ode := Ode.mk length (replicate length 0) None None None None in
  (Sim.mk (Sim.G sim) (Sim.N_var sim) (Sim.particles sim) (Sim.odes sim ++ [ode]),
   List.length (Sim.odes sim)).

(** ** The force accumulator *)

(** [p->ax -= v] and the like. *)
Definition sub_ax (v : R) (p : reb_particle) : reb_particle := set_ax (ax p - v) p.
Definition sub_ay (v : R) (p : reb_particle) : reb_particle := set_ay (ay p - v) p.
Definition sub_az (v : R) (p : reb_particle) : reb_particle := set_az (az p - v) p.
Definition add_ax (v : R) (p : reb_particle) : reb_particle := set_ax (ax p + v) p.
Definition add_ay (v : R) (p : reb_particle) : reb_particle := set_ay (ay p + v) p.
Definition add_az (v : R) (p : reb_particle) : reb_particle := set_az (az p + v) p.

(** [source] and [target] point into the array [particles]: they are the
    indices of the two bodies. *)
Definition rebx_spin_orbit_accelerations (source target : nat)
    (G k2 sigma sx sy sz : R) (particles : list reb_particle) : list reb_particle :=
  match particles !! source, particles !! target with
  | Some s, Some t =>
    let ms := m s in
    let mt := m t in
    let mtot := ms + mt in
    let tot_force := rebx_calculate_spin_orbit_accelerations s t G k2 sigma sx sy sz in
    let particles := alter (sub_ax ((ms / mtot) * Vec3d.x tot_force)) target particles in
    let particles := alter (sub_ay ((ms / mtot) * Vec3d.y tot_force)) target particles in
    let particles := alter (sub_az ((ms / mtot) * Vec3d.z tot_force)) target particles in
    let particles := alter (add_ax ((mt / mtot) * Vec3d.x tot_force)) source particles in
    let particles := alter (add_ay ((mt / mtot) * Vec3d.y tot_force)) source particles in
    let particles := alter (add_az ((mt / mtot) * Vec3d.z tot_force)) source particles in
    particles
  | _, _ => particles
  end.

(** The body of the inner loop of [rebx_tides_spin], for the source [i] and
    the target [j]. *)
Definition tides_spin_pair (G : R) (i : nat) (k2 sigma_in sx sy sz : R)
    (particles : list reb_particle) (j : nat) : list reb_particle :=
  if decide (i = j) then particles
  else
    match particles !! i, particles !! j with
    | Some source, Some target =>
      if Reqb (m source) 0 || Reqb (m target) 0 then particles
      else rebx_spin_orbit_accelerations i j G k2 sigma_in sx sy sz particles
    | _, _ => particles
    end.

(** The body of the outer loop of [rebx_tides_spin], for the source [i]. *)
Definition tides_spin_source (G : R) (N : nat) (particles : list reb_particle)
    (i : nat) : list reb_particle :=
  match particles !! i with
  | Some source =>
    let k2 := rebx_get_param (ap source) "k2" in
    let sigma := rebx_get_param (ap source) "sigma" in
    let sx := rebx_get_param (ap source) "sx" in
    let sy := rebx_get_param (ap source) "sy" in
    let sz := rebx_get_param (ap source) "sz" in
    match sx, sy, sz, k2 with
    | Some sx, Some sy, Some sz, Some k2 =>
      let sigma_in := match sigma with Some s => s | None => 0 end in
      foldl (tides_spin_pair G i k2 sigma_in sx sy sz) particles (seq 0 N)
    | _, _, _, _ => particles
    end
  | None => particles
  end.

(** [particles] is the array the integrator passes, with its length [N]. *)
Definition rebx_tides_spin (sim : reb_simulation) (particles : list reb_particle)
    : list message * list reb_particle :=
  let G := Sim.G sim in
  let N := length particles in
  let log :=
    match Sim.odes sim with
    | [] => [reb_warning
        ("Spin axes are not being evolved. Call rebx_spin_initialize_ode to evolve"
         ++ newline)]
    | _ => []
    end in
  (log, foldl (tides_spin_source G N) particles (seq 0 N)).

(** ** The spin potential *)

Definition rebx_calculate_spin_potential (source target : reb_particle)
    (G k2 : R) : R :=
  let ms := m source in
  let mt := m target in
  let Rt := r target in
  let mratio := ms / mt in
  let fac := mratio * k2 * Rt * Rt * Rt * Rt * Rt in
  let dx := x target - x source in
  let dy := y target - y source in
  let dz := z target - z source in
  let dr2 := dx * dx + dy * dy + dz * dz in
  -1 / 2 * G * ms * mt / (dr2 * dr2 * dr2) * fac.

(** The body of the inner loop of [rebx_spin_potential]. *)
Definition spin_potential_pair (particles : list reb_particle) (G : R) (i : nat)
    (k2 : R) (H : R) (j : nat) : R :=
  if decide (i = j) then H
  else
    match particles !! i, particles !! j with
    | Some source, Some target =>
      if Reqb (m source) 0 || Reqb (m target) 0 then H
      else H + rebx_calculate_spin_potential source target G k2
    | _, _ => H
    end.

(** The body of the outer loop of [rebx_spin_potential]. *)
Definition spin_potential_source (particles : list reb_particle) (G : R)
    (N_real : nat) (H : R) (i : nat) : R :=
  match particles !! i with
  | Some source =>
    let k2 := rebx_get_param (ap source) "k2" in
    let sigma := rebx_get_param (ap source) "sigma" in
    match k2, sigma with
    | Some k2, Some _ =>
      if Reqb (r source) 0 || Reqb (m source) 0 then H
      else foldl (spin_potential_pair particles G i k2) H (seq 0 N_real)
    | _, _ => H
    end
  | None => H
  end.

Definition rebx_spin_potential (rebx : rebx_extras) : R * list message :=
  match Extras.sim rebx with
  | None => (0, [rebx_error ""])
  | Some sim =>
    let N_real := N_real sim in
    let particles := Sim.particles sim in
    let G := Sim.G sim in
    (foldl (spin_potential_source particles G N_real) 0 (seq 0 N_real), [])
  end.

(** The potential as a sum over pairs.  [Rsum] adds up a list; the ordered
    pairs that contribute are those of distinct real bodies whose source has
    [k2] and [sigma], a nonzero radius and a nonzero mass, and whose target
    has a nonzero mass; each contributes
    [- 1/2 G m_s m_t (m_s / m_t) k2 R_t^5 / rr^6], [rr] the separation. *)
Definition Rsum (l : list R) : R := foldr Rplus 0 l.

Definition potential_pair_applies (particles : list reb_particle)
    (ij : nat * nat) : bool :=
  match particles !! ij.1, particles !! ij.2 with
  | Some source, Some target =>
    bool_decide (ij.1 <> ij.2)
    && bool_decide (is_Some (rebx_get_param (ap source) "k2"))
    && bool_decide (is_Some (rebx_get_param (ap source) "sigma"))
    && Rneqb (r source) 0 && Rneqb (m source) 0 && Rneqb (m target) 0
  | _, _ => false
  end.

Definition pair_potential (source target : reb_particle) (G k2 : R) : R :=
  let rr := vnorm (vsub (pos target) (pos source)) in
  - (1 / 2) * G * m source * m target * (m source / m target) * k2
  * r target ^ 5 / rr ^ 6.

Definition potential_pair_term (particles : list reb_particle) (G : R)
    (ij : nat * nat) : R :=
  match particles !! ij.1, particles !! ij.2 with
  | Some source, Some target =>
    pair_potential source target G (default 0 (rebx_get_param (ap source) "k2"))
  | _, _ => 0
  end.

Definition ordered_pairs (n : nat) : list (nat * nat) :=
  list_prod (seq 0 n) (seq 0 n).

(** ** The sigma helpers *)

(** The texts of the two errors. *)
Definition sigma_from_tau_error : string :=
  "Could not set sigma because Love number and/or physical radius was not set for this particle" ++ newline.

Definition sigma_from_Q_error : string :=
  "Could not calculate sigma because Love number and/or physical radius was not set for this particle" ++ newline.

Definition rebx_tides_calc_sigma_from_tau (rebx : rebx_extras) (body : reb_particle)
    (tau : R) : option (R * list message) :=
  sim ← Extras.sim rebx;
  let G := Sim.G sim in
  let k2 := rebx_get_param (ap body) "k2" in
  let r := r body in
  match k2 with
  | Some k2 =>
    if Rneqb r 0 then Some (4 * tau * G / (3 * r * r * r * r * r * k2), [])
    else Some (0, [rebx_error sigma_from_tau_error])
  | None => Some (0, [rebx_error sigma_from_tau_error])
  end.

(** [reb_tools_particle_to_orbit_n G body primary] stands for the mean motion
    [n] of the orbit that [reb_tools_particle_to_orbit], a function of the
    host integrator, computes for [body] around [primary]. *)
Definition rebx_tides_calc_sigma_from_Q
    (reb_tools_particle_to_orbit_n : R -> reb_particle -> reb_particle -> R)
    (rebx : rebx_extras) (body primary : reb_particle) (Q : R)
    : option (R * list message) :=
  sim ← Extras.sim rebx;
  let G := Sim.G sim in
  let r := r body in
  let n := reb_tools_particle_to_orbit_n G body primary in
  let k2 := rebx_get_param (ap body) "k2" in
  match k2 with
  | Some k2 =>
    if Rneqb r 0 then Some (2 * G / (3 * Q * r * r * r * r * r * k2 * n), [])
    else Some (0, [rebx_error sigma_from_Q_error])
  | None => Some (0, [rebx_error sigma_from_Q_error])
  end.

(** ** Creation of the spin ODE *)

Definition set_ref (v : option ode_ref) (o : reb_ode) : reb_ode :=
  Ode.mk (Ode.length o) (Ode.y o) v (Ode.derivatives o) (Ode.pre_timestep o)
         (Ode.post_timestep o).
Definition set_derivatives (v : option ode_function) (o : reb_ode) : reb_ode :=
  Ode.mk (Ode.length o) (Ode.y o) (Ode.ref o) v (Ode.pre_timestep o)
         (Ode.post_timestep o).
Definition set_pre_timestep (v : option ode_function) (o : reb_ode) : reb_ode :=
  Ode.mk (Ode.length o) (Ode.y o) (Ode.ref o) (Ode.derivatives o) v
         (Ode.post_timestep o).
Definition set_post_timestep (v : option ode_function) (o : reb_ode) : reb_ode :=
  Ode.mk (Ode.length o) (Ode.y o) (Ode.ref o) (Ode.derivatives o)
         (Ode.pre_timestep o) v.
Definition set_y (v : list R) (o : reb_ode) : reb_ode :=
  Ode.mk (Ode.length o) v (Ode.ref o) (Ode.derivatives o) (Ode.pre_timestep o)
         (Ode.post_timestep o).
Definition set_odes (v : list reb_ode) (sim : reb_simulation) : reb_simulation :=
  Sim.mk (Sim.G sim) (Sim.N_var sim) (Sim.particles sim) v.
Definition set_particles (v : list reb_particle) (sim : reb_simulation)
    : reb_simulation :=
  Sim.mk (Sim.G sim) (Sim.N_var sim) v (Sim.odes sim).

(** The body of the counting loop of [rebx_spin_initialize_ode]. *)
Definition spin_initialize_count (particles : list reb_particle) (Nspins : nat)
    (i : nat) : nat :=
  match particles !! i with
  | Some p =>
    let moi := rebx_get_param (ap p) "moi" in
    let sx := rebx_get_param (ap p) "sx" in
    let sy := rebx_get_param (ap p) "sy" in
    let sz := rebx_get_param (ap p) "sz" in
    match moi, sx, sy, sz with
    | Some _, Some _, Some _, Some _ => (Nspins + 1)%nat
    | _, _, _, _ => Nspins
    end
  | None => Nspins
  end.

Definition rebx_spin_initialize_ode (rebx : rebx_extras) (effect : rebx_force)
    : option (rebx_extras * rebx_force) :=
  sim ← Extras.sim rebx;
  let Nspins := foldl (spin_initialize_count (Sim.particles sim)) 0%nat
                      (seq 0 (N_real sim)) in
  if decide (0 < Nspins)%nat then
    let '(sim, spin_ode) := reb_create_ode sim (Nspins * 3) in
    let odes := Sim.odes sim in
    let odes := alter (set_ref (Some ref_simulation)) spin_ode odes in
    let odes := alter (set_derivatives (Some fn_rebx_spin_derivatives)) spin_ode odes in
    let odes := alter (set_pre_timestep (Some fn_rebx_spin_sync_pre)) spin_ode odes in
    let odes := alter (set_post_timestep (Some fn_rebx_spin_sync_post)) spin_ode odes in
    Some (Extras.mk (Some (set_odes odes sim)),
          Force.mk (rebx_set_param_pointer (Force.ap effect) "ode" spin_ode))
  else Some (rebx, effect).

(** The real bodies, and those among them that [rebx_spin_initialize_ode]
    counts: [moi], [sx], [sy] and [sz] all set. *)
Definition real_particles (sim : reb_simulation) : list reb_particle :=
  take (N_real sim) (Sim.particles sim).

Definition has_param (name : string) (p : reb_particle) : bool :=
  bool_decide (is_Some (rebx_get_param (ap p) name)).

Definition spin_tracked (p : reb_particle) : bool :=
  has_param "moi" p && has_param "sx" p && has_param "sy" p && has_param "sz" p.

(** The ODE that [rebx_spin_initialize_ode] registers for [N] counted bodies. *)
Definition spin_ode (N : nat) : reb_ode :=
  Ode.mk (3 * N) (replicate (3 * N) 0) (Some ref_simulation)
         (Some fn_rebx_spin_derivatives) (Some fn_rebx_spin_sync_pre)
         (Some fn_rebx_spin_sync_post).

(** ** The spin derivative function *)

(** The text of the length error of the three ODE callbacks. *)
Definition ode_length_error : string :=
  "rebx_spin ODE is not of the expected length." ++ newline.

(** The body of the inner loop of [rebx_spin_derivatives], for the body [pi]
    of index [i] and the other body of index [j]. *)
Definition spin_derivatives_pair (particles : list reb_particle) (G : R) (i : nat)
    (pi : reb_particle) (k2 sigma_in moi sx sy sz : R) (Nspins : nat)
    (yDot : list R) (j : nat) : option (list R) :=
  if decide (i <> j) then
    pj ← particles !! j;
    (* di - dj *)
    let dx := x pi - x pj in
    let dy := y pi - y pj in
    let dz := z pi - z pj in
    let mi := m pi in
    let mj := m pj in
    let mu_ij := (mi * mj) / (mi + mj) in
    let tf := rebx_calculate_spin_orbit_accelerations pi pj G k2 sigma_in sx sy sz in
    yDot ← array_add yDot (3 * Nspins)
             ((dy * Vec3d.z tf - dz * Vec3d.y tf) * (- mu_ij / moi));
    yDot ← array_add yDot (3 * Nspins + 1)
             ((dz * Vec3d.x tf - dx * Vec3d.z tf) * (- mu_ij / moi));
    array_add yDot (3 * Nspins + 2)
             ((dx * Vec3d.y tf - dy * Vec3d.x tf) * (- mu_ij / moi))
  else Some yDot.

(** The body of the outer loop, on the counter [Nspins] and the array [yDot]. *)
Definition spin_derivatives_body (sim : reb_simulation) (y : list R)
    (st : nat * list R) (i : nat) : option (nat * list R) :=
  let '(Nspins, yDot) := st in
  pi ← Sim.particles sim !! i;
  let k2 := rebx_get_param (ap pi) "k2" in
  let sigma := rebx_get_param (ap pi) "sigma" in
  let moi := rebx_get_param (ap pi) "moi" in
  (* Particle MUST have k2 and moment of inertia to feel effects *)
  match k2, moi with
  | Some k2, Some moi =>
    let sigma_in := match sigma with Some s => s | None => 0 end in
    yDot ← array_set yDot (3 * Nspins) 0;
    yDot ← array_set yDot (3 * Nspins + 1) 0;
    yDot ← array_set yDot (3 * Nspins + 2) 0;
    sx ← array_get y (3 * Nspins);
    sy ← array_get y (3 * Nspins + 1);
    sz ← array_get y (3 * Nspins + 2);
    yDot ← for_each (spin_derivatives_pair (Sim.particles sim) (Sim.G sim) i pi
                       k2 sigma_in moi sx sy sz Nspins)
                    yDot (seq 0 (N_real sim));
    Some ((Nspins + 1)%nat, yDot)
  | _, _ => Some (Nspins, yDot)
  end.

(** [sim] is what [ode->ref] points to. *)
Definition rebx_spin_derivatives (sim : reb_simulation) (ode : reb_ode)
    (yDot y : list R) (t : R) : option (outcome (list R)) :=
  '(Nspins, yDot) ← for_each (spin_derivatives_body sim y) (0%nat, yDot)
                             (seq 0 (N_real sim));
  if decide (Ode.length ode <> (Nspins * 3)%nat)
  then Some (Exited 1 [reb_error ode_length_error] yDot)
  else Some (Returned yDot).

(** The derivative in vector form.  The bodies whose spin evolves have [k2]
    and [moi]; the [k]-th of them, in the order of the particles, owns the
    slots [3k], [3k+1], [3k+2]. *)
Definition spin_evolving (p : reb_particle) : bool :=
  has_param "k2" p && has_param "moi" p.

Definition spin_rank (sim : reb_simulation) (i : nat) : nat :=
  length (List.filter spin_evolving (take i (Sim.particles sim))).

Definition spin_at (y : list R) (k : nat) : reb_vec3d :=
  Vec3d.mk (default 0 (y !! (3 * k)%nat)) (default 0 (y !! (3 * k + 1)%nat))
           (default 0 (y !! (3 * k + 2)%nat)).

Definition vsum (l : list reb_vec3d) : reb_vec3d := foldr vadd vzero l.

(** [(r_i - r_j) x F_ij], scaled by [- mu_ij / moi_i]. *)
Definition pair_torque (G : R) (pi : reb_particle) (k2 sigma moi : R)
    (Omega : reb_vec3d) (pj : reb_particle) : reb_vec3d :=
  vscale (- reduced_mass (m pi) (m pj) / moi)
    (vcross (vsub (pos pi) (pos pj))
       (rebx_calculate_spin_orbit_accelerations pi pj G k2 sigma
          (Vec3d.x Omega) (Vec3d.y Omega) (Vec3d.z Omega))).

(** The sum over every other real body. *)
Definition spin_torque (sim : reb_simulation) (y : list R) (i : nat)
    (pi : reb_particle) : reb_vec3d :=
  let k2 := default 0 (rebx_get_param (ap pi) "k2") in
  let sigma := default 0 (rebx_get_param (ap pi) "sigma") in
  let moi := default 0 (rebx_get_param (ap pi) "moi") in
  vsum (map (pair_torque (Sim.G sim) pi k2 sigma moi (spin_at y (spin_rank sim i)))
            (delete i (real_particles sim))).

(** Three consecutive slots of an array as a vector, and an update of an
    array that touches only these three slots. *)
Definition slots3 (a : list R) (b : nat) : option reb_vec3d :=
  vx ← a !! b; vy ← a !! (b + 1)%nat; vz ← a !! (b + 2)%nat;
  Some (Vec3d.mk vx vy vz).

Definition updated3 (a : list R) (b : nat) (v : reb_vec3d) (a' : list R) : Prop :=
  length a' = length a
  /\ slots3 a' b = Some v
  /\ forall k, k <> b -> k <> (b + 1)%nat -> k <> (b + 2)%nat -> a' !! k = a !! k.

(** The bodies other than the [i]-th among those of the indices [js]. *)
Definition other_bodies (particles : list reb_particle) (i : nat) (js : list nat)
    : list reb_particle :=
  omap (fun j => if decide (i = j) then None else particles !! j) js.

(** What holds after the first [n] rounds of the outer loop of
    [rebx_spin_derivatives], started on the array [yDot0]. *)
Definition derivatives_invariant (sim : reb_simulation) (y yDot0 : list R)
    (n : nat) (st : nat * list R) : Prop :=
  st.1 = spin_rank sim n
  /\ length st.2 = length yDot0
  /\ forall i pi, (i < n)%nat -> Sim.particles sim !! i = Some pi ->
       spin_evolving pi = true ->
       slots3 st.2 (3 * spin_rank sim i) = Some (spin_torque sim y i pi).

(** ** The spin state synchronizer *)

(** The body of the loop of [rebx_spin_sync_pre], on the counter and [ode->y]. *)
Definition spin_sync_pre_body (sim : reb_simulation) (st : nat * list R) (i : nat)
    : option (nat * list R) :=
  let '(Nspins, ode_y) := st in
  p ← Sim.particles sim !! i;
  let k2 := rebx_get_param (ap p) "k2" in
  match k2 with
  | Some _ =>
    let sx := rebx_get_param (ap p) "sx" in
    let sy := rebx_get_param (ap p) "sy" in
    let sz := rebx_get_param (ap p) "sz" in
    sxv ← sx; ode_y ← array_set ode_y (3 * Nspins) sxv;
    syv ← sy; ode_y ← array_set ode_y (3 * Nspins + 1) syv;
    szv ← sz; ode_y ← array_set ode_y (3 * Nspins + 2) szv;
    Some ((Nspins + 1)%nat, ode_y)
  | None => Some (Nspins, ode_y)
  end.

Definition rebx_spin_sync_pre (sim : reb_simulation) (ode : reb_ode) (y0 : list R)
    : option (outcome reb_ode) :=
  '(Nspins, ode_y) ← for_each (spin_sync_pre_body sim) (0%nat, Ode.y ode)
                              (seq 0 (N_real sim));
  if decide (Ode.length ode <> (Nspins * 3)%nat)
  then Some (Exited 1 [reb_error ode_length_error] (set_y ode_y ode))
  else Some (Returned (set_y ode_y ode)).

(** [rebx_set_param_double] on the parameters of a particle. *)
Definition set_param (name : string) (val : R) (p : reb_particle) : reb_particle :=
  set_ap (rebx_set_param_double (ap p) name val) p.

(** The body of the loop of [rebx_spin_sync_post], on the counter and the
    particles. *)
Definition spin_sync_post_body (y0 : list R) (st : nat * list reb_particle)
    (i : nat) : option (nat * list reb_particle) :=
  let '(Nspins, particles) := st in
  p ← particles !! i;
  let k2 := rebx_get_param (ap p) "k2" in
  match k2 with
  | Some _ =>
    v ← array_get y0 (3 * Nspins);
    let particles := alter (set_param "sx" v) i particles in
    v ← array_get y0 (3 * Nspins + 1);
    let particles := alter (set_param "sy" v) i particles in
    v ← array_get y0 (3 * Nspins + 2);
    let particles := alter (set_param "sz" v) i particles in
    Some ((Nspins + 1)%nat, particles)
  | None => Some (Nspins, particles)
  end.

Definition rebx_spin_sync_post (sim : reb_simulation) (ode : reb_ode) (y0 : list R)
    : option (outcome reb_simulation) :=
  '(Nspins, particles) ← for_each (spin_sync_post_body y0) (0%nat, Sim.particles sim)
                                  (seq 0 (N_real sim));
  if decide (Ode.length ode <> (Nspins * 3)%nat)
  then Some (Exited 0 [reb_error ode_length_error] (set_particles particles sim))
  else Some (Returned (set_particles particles sim)).

(** The bodies the two callbacks visit have [k2]; the [k]-th of them owns the
    slots [3k], [3k+1], [3k+2]. *)
Definition sync_rank (sim : reb_simulation) (i : nat) : nat :=
  length (List.filter (has_param "k2") (take i (Sim.particles sim))).

(** The rank among the bodies counted at the creation of the ODE. *)
Definition tracked_rank (sim : reb_simulation) (i : nat) : nat :=
  length (List.filter spin_tracked (take i (Sim.particles sim))).

(** The spin tags of a body as a vector. *)
Definition spin_of (p : reb_particle) : reb_vec3d :=
  Vec3d.mk (default 0 (rebx_get_param (ap p) "sx"))
           (default 0 (rebx_get_param (ap p) "sy"))
           (default 0 (rebx_get_param (ap p) "sz")).

(** A body whose spin tags are overwritten with a vector. *)
Definition with_spin (v : reb_vec3d) (p : reb_particle) : reb_particle :=
  set_param "sz" (Vec3d.z v) (set_param "sy" (Vec3d.y v) (set_param "sx" (Vec3d.x v) p)).

(** What holds after the first [n] rounds of the loop of
    [rebx_spin_sync_pre], started on the array [y_start]. *)
Definition sync_pre_invariant (sim : reb_simulation) (y_start : list R) (n : nat)
    (st : nat * list R) : Prop :=
  st.1 = sync_rank sim n
  /\ length st.2 = length y_start
  /\ forall i p, (i < n)%nat -> Sim.particles sim !! i = Some p ->
       has_param "k2" p = true ->
       slots3 st.2 (3 * sync_rank sim i) = Some (spin_of p).

(** What holds after the first [n] rounds of the loop of
    [rebx_spin_sync_post]. *)
Definition sync_post_invariant (sim : reb_simulation) (y0 : list R) (n : nat)
    (st : nat * list reb_particle) : Prop :=
  st.1 = sync_rank sim n
  /\ length st.2 = length (Sim.particles sim)
  /\ forall i p, Sim.particles sim !! i = Some p ->
       st.2 !! i =
       Some (if decide (i < n)%nat
             then if has_param "k2" p
                  then with_spin (spin_at y0 (sync_rank sim i)) p
                  else p
             else p).

(** The tags of the real bodies are consistent when those with [k2] are
    those counted at the creation of the ODE. *)
Definition consistent_tags (sim : reb_simulation) : Prop :=
  forall p, p ∈ real_particles sim -> has_param "k2" p = spin_tracked p.

(** The outcome of a callback that ends on the length check. *)
Definition checked {A : Type} (ode : reb_ode) (N : nat) (status : Z) (a : A)
    : outcome A :=
  if decide (Ode.length ode = (3 * N)%nat) then Returned a
  else Exited status [reb_error ode_length_error] a.

(** Two states of a body that differ at most in the acceleration. *)
Definition same_but_acceleration (p p' : reb_particle) : Prop :=
  pos p' = pos p /\ vel p' = vel p /\ m p' = m p /\ r p' = r p /\ ap p' = ap p.

(** ** Sample configurations *)

(** A body without parameters, at rest in the accumulators. *)
Definition body (px py pz pvx pvy pvz mass radius : R) : reb_particle :=
  mk_particle px py pz pvx pvy pvz 0 0 0 mass radius ∅.

(** A unit-mass, unit-radius body at distance 1 from a unit-mass body at the
    origin, on a prograde and on a retrograde circular-like velocity. *)
Definition primary_body : reb_particle := body 0 0 0 0 0 0 1 1.
Definition prograde_body : reb_particle := body 1 0 0 0 1 0 1 1.
Definition retrograde_body : reb_particle := body 1 0 0 0 (-1) 0 1 1.

(** The orbiting body with structure: Love number, spin along z, moment of
    inertia; and the array of the two bodies, the structured one first. *)
Definition structured_body : reb_particle :=
  set_ap (list_to_map [("k2", 1); ("sx", 0); ("sy", 0); ("sz", 1); ("moi", 1)])
         retrograde_body.

Definition tidal_pair : list reb_particle := [structured_body; primary_body].

(** The structured body with a dissipation parameter; a simulation of the two
    bodies without an ODE, and the extras attached to it. *)
Definition tidal_body : reb_particle :=
  set_ap (<["sigma" := 1]> (ap structured_body)) structured_body.

Definition tidal_sim : reb_simulation :=
  Sim.mk 1 0 [tidal_body; primary_body] [].

Definition tidal_rebx : rebx_extras := Extras.mk (Some tidal_sim).

(** A body with a moment of inertia and a spin but no Love number, alone in a
    simulation with the spin ODE that [rebx_spin_initialize_ode] creates
    for it. *)
Definition spinning_point : reb_particle :=
  set_ap (list_to_map [("moi", 1); ("sx", 0); ("sy", 0); ("sz", 1)]) primary_body.

Definition spinning_point_sim : reb_simulation :=
  Sim.mk 1 0 [spinning_point] [spin_ode 1].

(** An ODE of six slots, too long for the one tracked body of [tidal_sim]. *)
Definition long_ode : reb_ode :=
  Ode.mk 6 (replicate 6 0) (Some ref_simulation) (Some fn_rebx_spin_derivatives)
         (Some fn_rebx_spin_sync_pre) (Some fn_rebx_spin_sync_post).

(** ** Further notions used to state properties of the code *)

(** A body moved by [dp] and boosted by [dv]. *)
Definition boosted (dp dv : reb_vec3d) (p : reb_particle) : reb_particle :=
  mk_particle (x p + Vec3d.x dp) (y p + Vec3d.y dp) (z p + Vec3d.z dp)
              (vx p + Vec3d.x dv) (vy p + Vec3d.y dv) (vz p + Vec3d.z dv)
              (ax p) (ay p) (az p) (m p) (r p) (ap p).

(** The sum of [m a] over an array of particles. *)
Definition total_force (particles : list reb_particle) : reb_vec3d :=
  vsum (map (fun p => vscale (m p) (acc p)) particles).

(** A body that [rebx_tides_spin] takes as a source: [k2] and the three spin
    components are set. *)
Definition structured (p : reb_particle) : bool :=
  has_param "sx" p && has_param "sy" p && has_param "sz" p && has_param "k2" p.

(** The number of real bodies with [k2], which the two synchronization
    callbacks count. *)
Definition synced_count (sim : reb_simulation) : nat :=
  length (List.filter (has_param "k2") (real_particles sim)).

(** Every real body with [k2] has its three spin components. *)
Definition spins_present (sim : reb_simulation) : Prop :=
  forall p, p ∈ real_particles sim -> has_param "k2" p = true ->
    has_param "sx" p = true /\ has_param "sy" p = true /\ has_param "sz" p = true.

(** The state in which a call ends. *)
Definition final_state {A : Type} (o : outcome A) : A :=
  match o with
  | Returned a => a
  | Exited _ _ a => a
  end.

(** Two states of a body that differ at most in the spin tags [sx], [sy],
    [sz]. *)
Definition same_but_spin (p p' : reb_particle) : Prop :=
  pos p' = pos p /\ vel p' = vel p /\ acc p' = acc p /\ m p' = m p /\ r p' = r p
  /\ forall name, name <> "sx" -> name <> "sy" -> name <> "sz" ->
       rebx_get_param (ap p') name = rebx_get_param (ap p) name.

(** The configurations on which no division of the kernel and of the torque
    is by zero: the real bodies have positive masses and lie at distinct
    positions. *)
Definition positive_masses (sim : reb_simulation) : Prop :=
  forall p, p ∈ real_particles sim -> 0 < m p.

Definition distinct_positions (sim : reb_simulation) : Prop :=
  forall i j p q, i <> j ->
    real_particles sim !! i = Some p -> real_particles sim !! j = Some q ->
    pos p <> pos q.

(** * Properties *)

(** ** Scalars and vectors *)

Lemma Rneqb_true (a b : R) : a <> b -> Rneqb a b = true.
Proof. unfold Rneqb. destruct (Req_dec_T a b); congruence. Qed.

Lemma Rneqb_false (a : R) : Rneqb a a = false.
Proof. unfold Rneqb. destruct (Req_dec_T a a); congruence. Qed.

Lemma vec_eq (a b : reb_vec3d) :
  Vec3d.x a = Vec3d.x b -> Vec3d.y a = Vec3d.y b -> Vec3d.z a = Vec3d.z b -> a = b.
Proof. destruct a, b; simpl; intros; subst; reflexivity. Qed.

Lemma vdot_self_nonneg (a : reb_vec3d) : 0 <= vdot a a.
Proof. unfold vdot. nra. Qed.

(** ** The force kernel *)

Lemma kernel_decompose source target G k2 sigma sx sy sz :
  rebx_calculate_spin_orbit_accelerations source target G k2 sigma sx sy sz =
  vadd (quadrupole_term source target G k2 (Vec3d.mk sx sy sz))
       (dissipative_term source target k2 sigma (Vec3d.mk sx sy sz)).
Proof.
  unfold rebx_calculate_spin_orbit_accelerations, quadrupole_term,
    dissipative_term, reduced_mass, vnorm.
  cbv beta iota zeta delta
    [vadd vsub vscale vcross vdot pos vel Vec3d.x Vec3d.y Vec3d.z].
  set (d2 := (x source - x target) * (x source - x target)
             + (y source - y target) * (y source - y target)
             + (z source - z target) * (z source - z target)).
  assert (Hpos : 0 <= d2)
    by exact (vdot_self_nonneg (vsub (pos source) (pos target))).
  set (rr := sqrt d2).
  assert (Hn : d2 = rr * rr) by (symmetry; apply sqrt_sqrt, Hpos).
  clearbody rr. clearbody d2. subst d2.
  replace (rr * rr * (rr * rr) * (rr * rr) * (rr * rr) * (rr * rr))
    with (rr ^ 10) by ring.
  replace (rr * rr * rr * rr * rr * rr * rr * rr) with (rr ^ 8) by ring.
  replace (rr * rr * rr * rr * rr * rr * rr) with (rr ^ 7) by ring.
  replace (rr * rr * rr * rr * rr) with (rr ^ 5) by ring.
  destruct (Req_dec_T k2 0) as [->|Hk].
  - rewrite Rneqb_false. apply vec_eq; cbn [Vec3d.x Vec3d.y Vec3d.z];
      unfold Rdiv; ring.
  - rewrite (Rneqb_true _ _ Hk).
    destruct (Req_dec_T sigma 0) as [->|Hs].
    + rewrite Rneqb_false. apply vec_eq; cbn [Vec3d.x Vec3d.y Vec3d.z];
        unfold Rdiv; ring.
    + rewrite (Rneqb_true _ _ Hs). apply vec_eq; cbn [Vec3d.x Vec3d.y Vec3d.z];
        unfold Rdiv; ring.
Qed.

Lemma dissipative_term_sigma_zero source target k2 Omega :
  dissipative_term source target k2 0 Omega = vzero.
Proof.
  unfold dissipative_term. cbv zeta. unfold vscale, vzero, Rdiv.
  f_equal; ring.
Qed.

Lemma vadd_vzero_r (a : reb_vec3d) : vadd a vzero = a.
Proof. destruct a. unfold vadd, vzero. simpl. f_equal; ring. Qed.

Lemma quadrupole_contribution_eq source target G k2 sx sy sz :
  quadrupole_contribution source target G k2 sx sy sz =
  quadrupole_term source target G k2 (Vec3d.mk sx sy sz).
Proof.
  unfold quadrupole_contribution.
  rewrite kernel_decompose, dissipative_term_sigma_zero. apply vadd_vzero_r.
Qed.

Lemma dissipative_contribution_eq source target G k2 sigma sx sy sz :
  dissipative_contribution source target G k2 sigma sx sy sz =
  dissipative_term source target k2 sigma (Vec3d.mk sx sy sz).
Proof.
  unfold dissipative_contribution.
  rewrite !kernel_decompose, dissipative_term_sigma_zero.
  apply vec_eq; simpl; ring.
Qed.

(** Distance 1, as in the sample configurations. *)
Lemma vnorm_unit (d : reb_vec3d) : vdot d d = 1 -> vnorm d = 1.
Proof. intros H. unfold vnorm. rewrite H. apply sqrt_1. Qed.

Lemma sample_distance (p : reb_particle) :
  pos p = Vec3d.mk 1 0 0 -> vnorm (vsub (pos p) (pos primary_body)) = 1.
Proof.
  intros H. apply vnorm_unit. rewrite H. unfold vdot, vsub. simpl. ring.
Qed.

(** Unfolds the vector operations and the fields of the sample bodies. *)
Ltac unfold_vectors :=
  cbv beta iota delta
    [vadd vsub vscale vopp vcross vdot vzero pos vel acc
     Vec3d.x Vec3d.y Vec3d.z x y z vx vy vz ax ay az m r
     sub_ax sub_ay sub_az add_ax add_ay add_az set_ax set_ay set_az
     set_ap body primary_body prograde_body retrograde_body structured_body
     tidal_body].

Ltac eval_kernel :=
  rewrite ?kernel_decompose;
  unfold quadrupole_term, dissipative_term, dissipative_spin_part, reduced_mass;
  cbv zeta;
  rewrite ?sample_distance by reflexivity;
  apply vec_eq; unfold_vectors; field_simplify_eq; lra.

(** The kernel on the sample configurations. *)
Example kernel_prograde :
  rebx_calculate_spin_orbit_accelerations prograde_body primary_body 1 1 1 0 0 1
  = Vec3d.mk (-13) 0 0.
Proof. eval_kernel. Qed.

Example kernel_retrograde :
  rebx_calculate_spin_orbit_accelerations retrograde_body primary_body 1 1 1 0 0 1
  = Vec3d.mk (-13) 18 0.
Proof. eval_kernel. Qed.

Example kernel_without_sigma :
  rebx_calculate_spin_orbit_accelerations retrograde_body primary_body 1 1 0 0 0 1
  = Vec3d.mk (-13) 0 0.
Proof. eval_kernel. Qed.

Example kernel_tidal_body :
  rebx_calculate_spin_orbit_accelerations tidal_body primary_body 1 1 1 0 0 1
  = Vec3d.mk (-13) 18 0.
Proof. eval_kernel. Qed.


(** C1: with nonzero masses and [k2 <> 0], the kernel returns the quadrupole
    term (prefactor [m_target (k2 R_source^5) / mu], built from the
    spin-separation dot product, the squared spin and the distance powers
    [r^-5] to [r^-8], along the separation and along the spin) plus, when
    [sigma <> 0], the dissipative term
    [-9 sigma m_target^2 (k2 R_source^5)^2 / (2 mu r^10)] times
    [3 (d.v) d + (h - r^2 Omega) x d], with [h = d x v]. *)
Theorem spin_orbit_force_law (source target : reb_particle) (G k2 sigma sx sy sz : R) :
  m source <> 0 -> m target <> 0 -> k2 <> 0 ->
  rebx_calculate_spin_orbit_accelerations source target G k2 sigma sx sy sz =
  vadd (quadrupole_term source target G k2 (Vec3d.mk sx sy sz))
       (if Rneqb sigma 0
        then dissipative_term source target k2 sigma (Vec3d.mk sx sy sz)
        else vzero).
Proof.
  intros _ _ _. rewrite kernel_decompose. f_equal.
  destruct (Req_dec_T sigma 0) as [->|Hs].
  - rewrite Rneqb_false. apply dissipative_term_sigma_zero.
  - rewrite (Rneqb_true _ _ Hs). reflexivity.
Qed.

Lemma spin_orbit_force_law_witness :
  rebx_calculate_spin_orbit_accelerations retrograde_body primary_body 1 1 1 0 0 1 =
  vadd (quadrupole_term retrograde_body primary_body 1 1 (Vec3d.mk 0 0 1))
       (if Rneqb 1 0
        then dissipative_term retrograde_body primary_body 1 1 (Vec3d.mk 0 0 1)
        else vzero).
Proof.
  apply (spin_orbit_force_law retrograde_body primary_body 1 1 1 0 0 1);
    simpl; lra.
Defined.

(** C5: if [k2 = 0] the kernel returns exactly the zero vector, whatever the
    two bodies, [G], [sigma] and the spin are. *)
Theorem kernel_zero_without_k2 (source target : reb_particle) (G k2 sigma sx sy sz : R) :
  k2 = 0 ->
  rebx_calculate_spin_orbit_accelerations source target G k2 sigma sx sy sz =
  Vec3d.mk 0 0 0.
Proof.
  intros ->. unfold rebx_calculate_spin_orbit_accelerations.
  rewrite Rneqb_false. reflexivity.
Qed.

Lemma kernel_zero_without_k2_witness :
  rebx_calculate_spin_orbit_accelerations prograde_body primary_body 1 0 1 0 0 1 =
  Vec3d.mk 0 0 0.
Proof.
  apply (kernel_zero_without_k2 prograde_body primary_body 1 0 1 0 0 1).
  reflexivity.
Defined.

(** *** Reversal of the relative velocity *)

Lemma quadrupole_term_same_positions source target source' target' G k2 Omega :
  same_but_velocity source source' -> same_but_velocity target target' ->
  quadrupole_term source' target' G k2 Omega = quadrupole_term source target G k2 Omega.
Proof.
  intros (Hp & Hm & Hr) (Hp' & Hm' & Hr'). unfold quadrupole_term.
  rewrite Hp, Hp', Hm, Hm', Hr. reflexivity.
Qed.

Lemma dissipative_term_reversed source target source' target' k2 sigma Omega :
  same_but_velocity source source' -> same_but_velocity target target' ->
  vsub (vel source') (vel target') = vopp (vsub (vel source) (vel target)) ->
  dissipative_term source' target' k2 sigma Omega =
  vadd (vopp (dissipative_term source target k2 sigma Omega))
       (vscale 2 (dissipative_spin_part source target k2 sigma Omega)).
Proof.
  intros (Hp & Hm & Hr) (Hp' & Hm' & Hr') Hv.
  unfold dissipative_term, dissipative_spin_part. cbv zeta.
  rewrite Hp, Hp', Hm, Hm', Hr, Hv.
  generalize (vsub (pos source) (pos target)) as d.
  generalize (vsub (vel source) (vel target)) as v.
  intros [v1 v2 v3] d.
  generalize (vnorm d) as rr. destruct d as [d1 d2 d3], Omega as [o1 o2 o3].
  intros rr.
  generalize (-9 * sigma * m target ^ 2 * (k2 * r source ^ 5) ^ 2 /
              (2 * reduced_mass (m source) (m target) * rr ^ 10)) as pref.
  intros pref. apply vec_eq; unfold_vectors; ring.
Qed.

Lemma dissipative_spin_part_aligned source target k2 sigma Omega :
  vcross Omega (vsub (pos source) (pos target)) = vzero ->
  dissipative_spin_part source target k2 sigma Omega = vzero.
Proof.
  unfold dissipative_spin_part. cbv zeta.
  generalize (vsub (pos source) (pos target)) as d. intros d.
  generalize (vnorm d) as rr. destruct d as [d1 d2 d3], Omega as [o1 o2 o3].
  intros rr.
  generalize (-9 * sigma * m target ^ 2 * (k2 * r source ^ 5) ^ 2 /
              (2 * reduced_mass (m source) (m target) * rr ^ 10)) as pref.
  intros pref H.
  pose proof (f_equal Vec3d.x H) as Hx.
  pose proof (f_equal Vec3d.y H) as Hy.
  pose proof (f_equal Vec3d.z H) as Hz.
  revert Hx Hy Hz. unfold_vectors. intros Hx Hy Hz.
  apply vec_eq; unfold_vectors.
  - replace (- rr ^ 2 * o2 * d3 - - rr ^ 2 * o3 * d2)
      with (- rr ^ 2 * (o2 * d3 - o3 * d2)) by ring. rewrite Hx. ring.
  - replace (- rr ^ 2 * o3 * d1 - - rr ^ 2 * o1 * d3)
      with (- rr ^ 2 * (o3 * d1 - o1 * d3)) by ring. rewrite Hy. ring.
  - replace (- rr ^ 2 * o1 * d2 - - rr ^ 2 * o2 * d1)
      with (- rr ^ 2 * (o1 * d2 - o2 * d1)) by ring. rewrite Hz. ring.
Qed.

(** C6, as the code has it: negating the relative velocity (positions, masses,
    radii and the spin unchanged) leaves the quadrupole contribution
    unchanged; the dissipative contribution becomes its opposite plus twice
    its velocity-independent spin part, so it flips sign when the spin is
    parallel to the separation. *)
Theorem velocity_reversal (source target source' target' : reb_particle)
    (G k2 sigma sx sy sz : R) :
  k2 <> 0 -> sigma <> 0 ->
  same_but_velocity source source' -> same_but_velocity target target' ->
  vsub (vel source') (vel target') = vopp (vsub (vel source) (vel target)) ->
  quadrupole_contribution source' target' G k2 sx sy sz =
    quadrupole_contribution source target G k2 sx sy sz
  /\ dissipative_contribution source' target' G k2 sigma sx sy sz =
     vadd (vopp (dissipative_contribution source target G k2 sigma sx sy sz))
          (vscale 2 (dissipative_spin_part source target k2 sigma (Vec3d.mk sx sy sz)))
  /\ (vcross (Vec3d.mk sx sy sz) (vsub (pos source) (pos target)) = vzero ->
      dissipative_contribution source' target' G k2 sigma sx sy sz =
      vopp (dissipative_contribution source target G k2 sigma sx sy sz)).
Proof.
  intros _ _ Hs Ht Hv. rewrite !quadrupole_contribution_eq, !dissipative_contribution_eq.
  split; [|split].
  - apply quadrupole_term_same_positions; assumption.
  - apply dissipative_term_reversed; assumption.
  - intros Hal. rewrite (dissipative_term_reversed _ _ _ _ _ _ _ Hs Ht Hv).
    rewrite (dissipative_spin_part_aligned _ _ _ _ _ Hal).
    apply vec_eq; unfold_vectors; ring.
Qed.

Lemma sample_bodies_reversed :
  same_but_velocity prograde_body retrograde_body
  /\ same_but_velocity primary_body primary_body
  /\ vsub (vel retrograde_body) (vel primary_body) =
     vopp (vsub (vel prograde_body) (vel primary_body)).
Proof.
  repeat split. apply vec_eq; unfold_vectors; ring.
Qed.

Lemma velocity_reversal_witness :
  quadrupole_contribution retrograde_body primary_body 1 1 0 0 1 =
    quadrupole_contribution prograde_body primary_body 1 1 0 0 1
  /\ dissipative_contribution retrograde_body primary_body 1 1 1 0 0 1 =
     vadd (vopp (dissipative_contribution prograde_body primary_body 1 1 1 0 0 1))
          (vscale 2 (dissipative_spin_part prograde_body primary_body 1 1 (Vec3d.mk 0 0 1)))
  /\ (vcross (Vec3d.mk 0 0 1) (vsub (pos prograde_body) (pos primary_body)) = vzero ->
      dissipative_contribution retrograde_body primary_body 1 1 1 0 0 1 =
      vopp (dissipative_contribution prograde_body primary_body 1 1 1 0 0 1)).
Proof.
  destruct sample_bodies_reversed as (Hs & Ht & Hv).
  apply (velocity_reversal prograde_body primary_body retrograde_body primary_body
           1 1 1 0 0 1); [lra | lra | exact Hs | exact Ht | exact Hv].
Defined.

(** The dissipative contribution on the sample configurations: zero on the
    prograde orbit (the spin is synchronous), not zero on the retrograde. *)
Example dissipative_prograde :
  dissipative_contribution prograde_body primary_body 1 1 1 0 0 1 = Vec3d.mk 0 0 0.
Proof. rewrite dissipative_contribution_eq. eval_kernel. Qed.

Example dissipative_retrograde :
  dissipative_contribution retrograde_body primary_body 1 1 1 0 0 1 = Vec3d.mk 0 18 0.
Proof. rewrite dissipative_contribution_eq. eval_kernel. Qed.

(** C6 as stated fails: with [k2 = sigma = 1], the relative velocity negated
    and everything else unchanged, the dissipative contribution goes from
    [(0, 0, 0)] to [(0, 18, 0)], which is not its opposite. *)
Lemma velocity_reversal_counterexample :
  (1 <> 0
   /\ same_but_velocity prograde_body retrograde_body
   /\ same_but_velocity primary_body primary_body
   /\ vsub (vel retrograde_body) (vel primary_body) =
      vopp (vsub (vel prograde_body) (vel primary_body)))
  /\ dissipative_contribution retrograde_body primary_body 1 1 1 0 0 1 <>
     vopp (dissipative_contribution prograde_body primary_body 1 1 1 0 0 1).
Proof.
  split.
  - split; [lra | exact sample_bodies_reversed].
  - rewrite dissipative_prograde, dissipative_retrograde.
    intros H. apply (f_equal Vec3d.y) in H. simpl in H. lra.
Qed.

(** ** The force accumulator *)

Lemma Reqb_false (a b : R) : a <> b -> Reqb a b = false.
Proof. unfold Reqb. destruct (Req_dec_T a b); congruence. Qed.

(** What one call of [rebx_spin_orbit_accelerations] leaves in the two
    bodies, when they are distinct. *)
Lemma spin_orbit_accelerations_lookup (i j : nat) (G k2 sigma sx sy sz : R)
    (particles : list reb_particle) (s t : reb_particle) :
  i <> j -> particles !! i = Some s -> particles !! j = Some t ->
  let F := rebx_calculate_spin_orbit_accelerations s t G k2 sigma sx sy sz in
  let mtot := m s + m t in
  let particles' := rebx_spin_orbit_accelerations i j G k2 sigma sx sy sz particles in
  particles' !! j =
    Some (sub_az (m s / mtot * Vec3d.z F)
           (sub_ay (m s / mtot * Vec3d.y F) (sub_ax (m s / mtot * Vec3d.x F) t)))
  /\ particles' !! i =
    Some (add_az (m t / mtot * Vec3d.z F)
           (add_ay (m t / mtot * Vec3d.y F) (add_ax (m t / mtot * Vec3d.x F) s))).
Proof.
  intros Hij Hi Hj F mtot particles'. subst particles'.
  unfold rebx_spin_orbit_accelerations. rewrite Hi, Hj. cbv zeta. split.
  - rewrite !list_lookup_alter_ne by congruence.
    rewrite !list_lookup_alter_eq, Hj. reflexivity.
  - rewrite !list_lookup_alter_eq.
    rewrite !list_lookup_alter_ne by congruence. rewrite Hi. reflexivity.
Qed.

(** C3: in one pair evaluation of the accumulator (the source has [k2], [sx],
    [sy], [sz], both masses are nonzero, source and target differ) the
    target's acceleration is decremented by [(m_source / m_total) F] and the
    source's incremented by [(m_target / m_total) F], for the one kernel force
    [F], so that [m_source da_source + m_target da_target = 0]. *)
Theorem pair_momentum (G : R) (N i j : nat) (particles : list reb_particle)
    (source target : reb_particle) (k2 sx sy sz : R) :
  i <> j ->
  particles !! i = Some source -> particles !! j = Some target ->
  rebx_get_param (ap source) "k2" = Some k2 ->
  rebx_get_param (ap source) "sx" = Some sx ->
  rebx_get_param (ap source) "sy" = Some sy ->
  rebx_get_param (ap source) "sz" = Some sz ->
  m source <> 0 -> m target <> 0 ->
  let sigma_in := default 0 (rebx_get_param (ap source) "sigma") in
  let F := rebx_calculate_spin_orbit_accelerations source target G k2 sigma_in sx sy sz in
  let particles' := tides_spin_pair G i k2 sigma_in sx sy sz particles j in
  tides_spin_source G N particles i =
    foldl (tides_spin_pair G i k2 sigma_in sx sy sz) particles (seq 0 N)
  /\ exists source' target',
       particles' !! i = Some source' /\ particles' !! j = Some target'
       /\ acc target' = vsub (acc target) (vscale (m source / (m source + m target)) F)
       /\ acc source' = vadd (acc source) (vscale (m target / (m source + m target)) F)
       /\ vadd (vscale (m source) (vsub (acc source') (acc source)))
               (vscale (m target) (vsub (acc target') (acc target))) = vzero.
Proof.
  intros Hij Hi Hj Hk2 Hsx Hsy Hsz Hms Hmt sigma_in F particles'. split.
  - unfold tides_spin_source. rewrite Hi, Hk2, Hsx, Hsy, Hsz.
    subst sigma_in. destruct (rebx_get_param (ap source) "sigma"); reflexivity.
  - subst particles'. unfold tides_spin_pair.
    rewrite decide_False by exact Hij. rewrite Hi, Hj.
    rewrite (Reqb_false _ _ Hms), (Reqb_false _ _ Hmt). simpl orb. cbv iota.
    destruct (spin_orbit_accelerations_lookup i j G k2 sigma_in sx sy sz
                particles source target Hij Hi Hj) as [Ht Hs].
    eexists _, _. split; [exact Hs|]. split; [exact Ht|].
    fold F. destruct F as [Fx Fy Fz].
    repeat split; apply vec_eq; unfold_vectors; unfold Rdiv; ring.
Qed.

Lemma pair_momentum_witness :
  let sigma_in := default 0 (rebx_get_param (ap structured_body) "sigma") in
  let F := rebx_calculate_spin_orbit_accelerations structured_body primary_body
             1 1 sigma_in 0 0 1 in
  let particles' := tides_spin_pair 1 0 1 sigma_in 0 0 1 tidal_pair 1 in
  tides_spin_source 1 2 tidal_pair 0 =
    foldl (tides_spin_pair 1 0 1 sigma_in 0 0 1) tidal_pair (seq 0 2)
  /\ exists source' target',
       particles' !! 0%nat = Some source' /\ particles' !! 1%nat = Some target'
       /\ acc target' = vsub (acc primary_body)
            (vscale (m structured_body / (m structured_body + m primary_body)) F)
       /\ acc source' = vadd (acc structured_body)
            (vscale (m primary_body / (m structured_body + m primary_body)) F)
       /\ vadd (vscale (m structured_body) (vsub (acc source') (acc structured_body)))
               (vscale (m primary_body) (vsub (acc target') (acc primary_body))) = vzero.
Proof.
  apply (pair_momentum 1 2 0 1 tidal_pair structured_body primary_body 1 0 0 1);
    try reflexivity; try (simpl; lra). lia.
Defined.

(** *** Frame of the accumulator *)

Lemma same_but_acceleration_refl p : same_but_acceleration p p.
Proof. repeat split. Qed.

Lemma same_but_acceleration_trans p q s :
  same_but_acceleration p q -> same_but_acceleration q s -> same_but_acceleration p s.
Proof.
  unfold same_but_acceleration.
  intros (-> & -> & -> & -> & ->) (-> & -> & -> & -> & ->). repeat split.
Qed.

Lemma framed_refl (l : list reb_particle) : Forall2 same_but_acceleration l l.
Proof.
  induction l as [|p l IH]; constructor;
    [apply same_but_acceleration_refl | exact IH].
Qed.

(** An update of one particle of the array that keeps its frame keeps the
    frame of the array. *)
Lemma framed_alter (f : reb_particle -> reb_particle) (i : nat)
    (l0 l : list reb_particle) :
  (forall p, same_but_acceleration p (f p)) ->
  Forall2 same_but_acceleration l0 l ->
  Forall2 same_but_acceleration l0 (alter f i l).
Proof.
  intros Hf H. apply Forall2_alter_r; [exact H|].
  intros p q _ _ Hpq. eapply same_but_acceleration_trans; [exact Hpq | apply Hf].
Qed.

Lemma framed_foldl {B : Type} (f : list reb_particle -> B -> list reb_particle)
    (bs : list B) (l0 l : list reb_particle) :
  (forall l b, Forall2 same_but_acceleration l0 l ->
               Forall2 same_but_acceleration l0 (f l b)) ->
  Forall2 same_but_acceleration l0 l ->
  Forall2 same_but_acceleration l0 (foldl f l bs).
Proof.
  intros Hf. revert l. induction bs as [|b bs IH]; intros l H; simpl.
  - exact H.
  - apply IH, Hf, H.
Qed.

Lemma framed_spin_orbit_accelerations i j G k2 sigma sx sy sz l0 l :
  Forall2 same_but_acceleration l0 l ->
  Forall2 same_but_acceleration l0
    (rebx_spin_orbit_accelerations i j G k2 sigma sx sy sz l).
Proof.
  intros H. unfold rebx_spin_orbit_accelerations.
  destruct (l !! i); [|exact H]. destruct (l !! j); [|exact H]. cbv zeta.
  repeat (apply framed_alter; [intros p; repeat split|]). exact H.
Qed.

Lemma framed_tides_spin_pair G i k2 sigma sx sy sz l0 l j :
  Forall2 same_but_acceleration l0 l ->
  Forall2 same_but_acceleration l0 (tides_spin_pair G i k2 sigma sx sy sz l j).
Proof.
  intros H. unfold tides_spin_pair.
  destruct (decide (i = j)); [exact H|].
  destruct (l !! i); [|exact H]. destruct (l !! j); [|exact H].
  destruct (Reqb _ _ || Reqb _ _); [exact H|].
  apply framed_spin_orbit_accelerations, H.
Qed.

Lemma framed_tides_spin_source G N l0 l i :
  Forall2 same_but_acceleration l0 l ->
  Forall2 same_but_acceleration l0 (tides_spin_source G N l i).
Proof.
  intros H. unfold tides_spin_source.
  destruct (l !! i) as [source|]; [|exact H]. cbv zeta.
  destruct (rebx_get_param (ap source) "sx"); [|exact H].
  destruct (rebx_get_param (ap source) "sy"); [|exact H].
  destruct (rebx_get_param (ap source) "sz"); [|exact H].
  destruct (rebx_get_param (ap source) "k2"); [|exact H].
  apply framed_foldl; [|exact H].
  intros l' j' H'. apply framed_tides_spin_pair, H'.
Qed.

(** C9: [rebx_tides_spin] changes only [ax], [ay], [az] of the particles it
    is given: the array keeps its length, and every particle keeps its mass,
    position, velocity, radius and parameters ([k2], [sigma], [moi], [sx],
    [sy], [sz] among them). *)
Theorem tides_spin_frame (sim : reb_simulation) (particles : list reb_particle) :
  Forall2 same_but_acceleration particles (rebx_tides_spin sim particles).2.
Proof.
  unfold rebx_tides_spin. cbv zeta. simpl snd.
  apply framed_foldl.
  - intros l i H. apply framed_tides_spin_source, H.
  - apply framed_refl.
Qed.

(** One pair evaluation on the sample bodies: the force [(-13, 18, 0)] is
    split into [-F/2] for the target and [+F/2] for the source. *)
Example spin_orbit_accelerations_sample :
  rebx_spin_orbit_accelerations 0 1 1 1 1 0 0 1 [tidal_body; primary_body]
  = [set_ay 9 (set_ax (-13 / 2) tidal_body);
     set_ay (-9) (set_ax (13 / 2) primary_body)].
Proof.
  pose (F := rebx_calculate_spin_orbit_accelerations tidal_body primary_body 1 1 1 0 0 1).
  transitivity
    [add_az (1 / (1 + 1) * Vec3d.z F)
       (add_ay (1 / (1 + 1) * Vec3d.y F) (add_ax (1 / (1 + 1) * Vec3d.x F) tidal_body));
     sub_az (1 / (1 + 1) * Vec3d.z F)
       (sub_ay (1 / (1 + 1) * Vec3d.y F) (sub_ax (1 / (1 + 1) * Vec3d.x F) primary_body))].
  - reflexivity.
  - unfold F. rewrite kernel_tidal_body.
    unfold add_az, add_ay, add_ax, sub_az, sub_ay, sub_ax, set_az, set_ay, set_ax.
    simpl. repeat f_equal; field.
Qed.

(** The accumulator on the sample simulation, which has no ODE: a warning,
    and the one pair evaluation with the structured body as source. *)
Example tides_spin_sample :
  rebx_tides_spin tidal_sim (Sim.particles tidal_sim)
  = ([reb_warning
        ("Spin axes are not being evolved. Call rebx_spin_initialize_ode to evolve"
         ++ newline)],
     [set_ay 9 (set_ax (-13 / 2) tidal_body);
      set_ay (-9) (set_ax (13 / 2) primary_body)]).
Proof.
  unfold rebx_tides_spin. cbv zeta. f_equal.
  change (foldl (tides_spin_source 1 2) [tidal_body; primary_body] [0; 1]%nat
          = [set_ay 9 (set_ax (-13 / 2) tidal_body);
             set_ay (-9) (set_ax (13 / 2) primary_body)]).
  assert (E0 : tides_spin_source 1 2 [tidal_body; primary_body] 0 =
               rebx_spin_orbit_accelerations 0 1 1 1 1 0 0 1 [tidal_body; primary_body]).
  { change (tides_spin_source 1 2 [tidal_body; primary_body] 0)
      with (tides_spin_pair 1 0 1 1 0 0 1 [tidal_body; primary_body] 1).
    unfold tides_spin_pair. rewrite decide_False by lia.
    change ([tidal_body; primary_body] !! 0%nat) with (Some tidal_body).
    change ([tidal_body; primary_body] !! 1%nat) with (Some primary_body).
    cbv iota beta.
    change (m tidal_body) with 1. change (m primary_body) with 1.
    rewrite (Reqb_false 1 0) by lra. reflexivity. }
  simpl foldl. rewrite E0, spin_orbit_accelerations_sample. reflexivity.
Qed.

(** ** The spin potential *)

Lemma Rsum_app (l k : list R) : Rsum (l ++ k) = Rsum l + Rsum k.
Proof.
  unfold Rsum. induction l as [|a l IH]; simpl.
  - ring.
  - rewrite IH. ring.
Qed.

(** The contribution of one pair, as the code computes it. *)
Lemma calculate_spin_potential_eq source target G k2 :
  rebx_calculate_spin_potential source target G k2 = pair_potential source target G k2.
Proof.
  unfold rebx_calculate_spin_potential, pair_potential, vnorm. cbv zeta.
  cbv beta iota delta [vsub vdot pos Vec3d.x Vec3d.y Vec3d.z].
  set (dr2 := (x target - x source) * (x target - x source)
              + (y target - y source) * (y target - y source)
              + (z target - z source) * (z target - z source)).
  assert (Hpos : 0 <= dr2)
    by exact (vdot_self_nonneg (vsub (pos target) (pos source))).
  set (rr := sqrt dr2).
  assert (Hn : dr2 = rr * rr) by (symmetry; apply sqrt_sqrt, Hpos).
  clearbody rr. clearbody dr2. subst dr2.
  replace (rr * rr * (rr * rr) * (rr * rr)) with (rr ^ 6) by ring.
  unfold Rdiv. ring.
Qed.

(** No pair with the source [i] contributes when [i] fails the test of the
    outer loop. *)
Lemma potential_source_skipped (particles : list reb_particle) (i : nat)
    (js : list nat) :
  (forall source, particles !! i = Some source ->
     rebx_get_param (ap source) "k2" = None
     \/ rebx_get_param (ap source) "sigma" = None
     \/ Reqb (r source) 0 || Reqb (m source) 0 = true) ->
  List.filter (potential_pair_applies particles) (map (pair i) js) = [].
Proof.
  intros Hskip. induction js as [|j js IH]; [reflexivity|]. simpl.
  rewrite IH. unfold potential_pair_applies. simpl.
  destruct (particles !! i) as [source|] eqn:Hi; [|reflexivity].
  destruct (particles !! j) as [target|]; [|reflexivity].
  destruct (Hskip source eq_refl) as [Hk | [Hs | Hz]].
  - rewrite Hk. rewrite (bool_decide_eq_false_2 (is_Some None)) by (apply is_Some_None).
    rewrite andb_false_r. reflexivity.
  - rewrite Hs. rewrite (bool_decide_eq_false_2 (is_Some None)) by (apply is_Some_None).
    rewrite andb_false_r. reflexivity.
  - unfold Reqb, Rneqb in *.
    destruct (Req_dec_T (r source) 0), (Req_dec_T (m source) 0);
      simpl in Hz; try discriminate; rewrite ?andb_false_r; reflexivity.
Qed.

(** The test of a pair whose source [i] passes the test of the outer loop. *)
Lemma potential_pair_applies_eligible (particles : list reb_particle) (i j : nat)
    (source : reb_particle) :
  particles !! i = Some source ->
  is_Some (rebx_get_param (ap source) "k2") ->
  is_Some (rebx_get_param (ap source) "sigma") ->
  Reqb (r source) 0 = false -> Reqb (m source) 0 = false ->
  potential_pair_applies particles (i, j) =
  match particles !! j with
  | Some target => bool_decide (i <> j) && Rneqb (m target) 0
  | None => false
  end.
Proof.
  intros Hi Hk Hs Hr Hm. unfold potential_pair_applies. simpl. rewrite Hi.
  destruct (particles !! j) as [target|]; [|reflexivity].
  rewrite (bool_decide_eq_true_2 _ Hk), (bool_decide_eq_true_2 _ Hs).
  unfold Reqb, Rneqb in *.
  destruct (Req_dec_T (r source) 0); [discriminate|].
  destruct (Req_dec_T (m source) 0); [discriminate|].
  rewrite !andb_true_r. reflexivity.
Qed.

(** The inner loop adds the contributions of the pairs with source [i]. *)
Lemma potential_inner_loop (particles : list reb_particle) (G : R) (i : nat)
    (source : reb_particle) (k2 sigma : R) (js : list nat) (H : R) :
  particles !! i = Some source ->
  rebx_get_param (ap source) "k2" = Some k2 ->
  rebx_get_param (ap source) "sigma" = Some sigma ->
  Reqb (r source) 0 || Reqb (m source) 0 = false ->
  foldl (spin_potential_pair particles G i k2) H js =
  H + Rsum (map (potential_pair_term particles G)
              (List.filter (potential_pair_applies particles) (map (pair i) js))).
Proof.
  intros Hi Hk Hs Hz. revert H.
  apply orb_false_elim in Hz as [Hr Hm].
  assert (Hk' : is_Some (rebx_get_param (ap source) "k2")) by (rewrite Hk; eauto).
  assert (Hs' : is_Some (rebx_get_param (ap source) "sigma")) by (rewrite Hs; eauto).
  induction js as [|j js IH]; intros H; simpl.
  - unfold Rsum. simpl. ring.
  - rewrite IH. unfold spin_potential_pair at 1.
    rewrite (potential_pair_applies_eligible particles i j source) by assumption.
    rewrite Hi.
    destruct (decide (i = j)) as [Hij|Hij].
    { subst j. rewrite Hi.
      rewrite bool_decide_eq_false_2 by (intros Hne; exact (Hne eq_refl)).
      reflexivity. }
    rewrite bool_decide_eq_true_2 by exact Hij.
    destruct (particles !! j) as [target|] eqn:Hj; [|reflexivity].
    rewrite Hm. simpl orb. simpl andb.
    unfold Reqb, Rneqb.
    destruct (Req_dec_T (m target) 0); [reflexivity|].
    simpl map. change (Rsum (?a :: ?l)) with (a + Rsum l).
    assert (Hterm : potential_pair_term particles G (i, j) =
                    pair_potential source target G k2).
    { unfold potential_pair_term. simpl fst. simpl snd.
      rewrite Hi, Hj, Hk. reflexivity. }
    rewrite Hterm, calculate_spin_potential_eq. ring.
Qed.

(** The outer loop adds the contributions of all pairs. *)
Lemma potential_outer_loop (particles : list reb_particle) (G : R) (n : nat)
    (idx : list nat) (H : R) :
  foldl (spin_potential_source particles G n) H idx =
  H + Rsum (map (potential_pair_term particles G)
              (List.filter (potential_pair_applies particles)
                 (list_prod idx (seq 0 n)))).
Proof.
  revert H. induction idx as [|i idx IH]; intros H; simpl.
  - unfold Rsum. simpl. ring.
  - rewrite IH, List.filter_app, map_app, Rsum_app.
    rewrite <- Rplus_assoc. f_equal.
    unfold spin_potential_source.
    destruct (particles !! i) as [source|] eqn:Hi.
    + cbv zeta.
      destruct (rebx_get_param (ap source) "k2") as [k2|] eqn:Hk.
      * destruct (rebx_get_param (ap source) "sigma") as [sigma|] eqn:Hs.
        -- destruct (Reqb (r source) 0 || Reqb (m source) 0) eqn:Hz.
           ++ rewrite potential_source_skipped; [unfold Rsum; simpl; ring|].
              intros s Hs'. rewrite Hi in Hs'. injection Hs' as <-. auto.
           ++ eapply potential_inner_loop; eassumption.
        -- rewrite potential_source_skipped; [unfold Rsum; simpl; ring|].
           intros s Hs'. rewrite Hi in Hs'. injection Hs' as <-. auto.
      * rewrite potential_source_skipped; [unfold Rsum; simpl; ring|].
        intros s Hs'. rewrite Hi in Hs'. injection Hs' as <-. auto.
    + rewrite potential_source_skipped; [unfold Rsum; simpl; ring|].
      intros s Hs'. rewrite Hi in Hs'. discriminate.
Qed.

(** C7: [rebx_spin_potential] returns the sum, over the ordered pairs of
    distinct real bodies whose source has [k2] and [sigma] set, a nonzero
    radius and a nonzero mass and whose target has a nonzero mass, of
    [- 1/2 G m_s m_t (m_s / m_t) k2 R_t^5 / rr^6], with the Love number of the
    source, the radius of the target and the separation [rr] of the pair. *)
Theorem spin_potential_sum (rebx : rebx_extras) (sim : reb_simulation) :
  Extras.sim rebx = Some sim ->
  rebx_spin_potential rebx =
  (Rsum (map (potential_pair_term (Sim.particles sim) (Sim.G sim))
           (List.filter (potential_pair_applies (Sim.particles sim))
              (ordered_pairs (N_real sim)))), []).
Proof.
  intros Hsim. unfold rebx_spin_potential. rewrite Hsim. cbv zeta.
  rewrite potential_outer_loop. unfold ordered_pairs. f_equal. ring.
Qed.

Lemma spin_potential_sum_witness :
  rebx_spin_potential tidal_rebx =
  (Rsum (map (potential_pair_term (Sim.particles tidal_sim) (Sim.G tidal_sim))
           (List.filter (potential_pair_applies (Sim.particles tidal_sim))
              (ordered_pairs (N_real tidal_sim)))), []).
Proof. apply (spin_potential_sum tidal_rebx tidal_sim). reflexivity. Defined.

(** The potential of the sample simulation: the one pair whose source has
    [k2] and [sigma]. *)
Example spin_potential_sample : rebx_spin_potential tidal_rebx = (-1 / 2, []).
Proof.
  unfold rebx_spin_potential. simpl Extras.sim. cbv iota zeta beta. f_equal.
  change (spin_potential_source [tidal_body; primary_body] 1 2
            (spin_potential_source [tidal_body; primary_body] 1 2 0 0) 1 = -1 / 2).
  assert (E0 : spin_potential_source [tidal_body; primary_body] 1 2 0 0 =
               0 + rebx_calculate_spin_potential tidal_body primary_body 1 1).
  { unfold spin_potential_source.
    change ([tidal_body; primary_body] !! 0%nat) with (Some tidal_body).
    cbv iota beta zeta.
    change (rebx_get_param (ap tidal_body) "k2") with (Some 1).
    change (rebx_get_param (ap tidal_body) "sigma") with (Some 1).
    cbv iota beta.
    change (r tidal_body) with 1. change (m tidal_body) with 1.
    rewrite (Reqb_false 1 0) by lra. simpl orb. cbv iota.
    change (foldl ?f 0 (seq 0 2)) with (f (f 0 0%nat) 1%nat).
    change (spin_potential_pair [tidal_body; primary_body] 1 0 1 0 0) with 0.
    unfold spin_potential_pair. rewrite decide_False by lia.
    change ([tidal_body; primary_body] !! 0%nat) with (Some tidal_body).
    change ([tidal_body; primary_body] !! 1%nat) with (Some primary_body).
    cbv iota beta.
    change (m tidal_body) with 1. change (m primary_body) with 1.
    rewrite (Reqb_false 1 0) by lra. reflexivity. }
  rewrite E0.
  change (spin_potential_source [tidal_body; primary_body] 1 2 ?H 1) with H.
  rewrite calculate_spin_potential_eq. unfold pair_potential. cbv zeta.
  replace (vnorm (vsub (pos primary_body) (pos tidal_body))) with 1.
  - unfold_vectors. field.
  - symmetry. apply vnorm_unit. unfold_vectors. ring.
Qed.

(** ** The sigma helpers *)

(** C8: for a body with [k2] set and a nonzero radius,
    [rebx_tides_calc_sigma_from_tau] returns [4 tau G / (3 R^5 k2)] and
    [rebx_tides_calc_sigma_from_Q] returns [2 G / (3 Q R^5 k2 n)], [n] the mean
    motion about the primary; when [k2] is absent or the radius is zero, each
    reports an error with [rebx_error] and returns 0, and the run goes on. *)
Theorem sigma_helpers
    (reb_tools_particle_to_orbit_n : R -> reb_particle -> reb_particle -> R)
    (rebx : rebx_extras) (sim : reb_simulation) (body primary : reb_particle)
    (tau Q : R) :
  Extras.sim rebx = Some sim ->
  (forall k2, rebx_get_param (ap body) "k2" = Some k2 -> r body <> 0 ->
     rebx_tides_calc_sigma_from_tau rebx body tau =
       Some (4 * tau * Sim.G sim / (3 * r body ^ 5 * k2), [])
     /\ rebx_tides_calc_sigma_from_Q reb_tools_particle_to_orbit_n rebx body primary Q =
       Some (2 * Sim.G sim /
             (3 * Q * r body ^ 5 * k2
              * reb_tools_particle_to_orbit_n (Sim.G sim) body primary), []))
  /\ (rebx_get_param (ap body) "k2" = None \/ r body = 0 ->
      rebx_tides_calc_sigma_from_tau rebx body tau =
        Some (0, [rebx_error sigma_from_tau_error])
      /\ rebx_tides_calc_sigma_from_Q reb_tools_particle_to_orbit_n rebx body primary Q =
        Some (0, [rebx_error sigma_from_Q_error])).
Proof.
  intros Hsim.
  unfold rebx_tides_calc_sigma_from_tau, rebx_tides_calc_sigma_from_Q.
  rewrite Hsim. simpl. split.
  - intros k2 Hk Hr. rewrite Hk, (Rneqb_true _ _ Hr). split.
    + replace (3 * r body * r body * r body * r body * r body * k2)
        with (3 * (r body * (r body * (r body * (r body * (r body * 1))))) * k2) by ring.
      reflexivity.
    + replace (3 * Q * r body * r body * r body * r body * r body * k2)
        with (3 * Q * (r body * (r body * (r body * (r body * (r body * 1))))) * k2)
        by ring.
      reflexivity.
  - intros [Hk | Hr].
    + rewrite Hk. split; reflexivity.
    + rewrite Hr, Rneqb_false.
      destruct (rebx_get_param (ap body) "k2"); split; reflexivity.
Qed.

Lemma sigma_helpers_witness :
  (forall k2, rebx_get_param (ap tidal_body) "k2" = Some k2 -> r tidal_body <> 0 ->
     rebx_tides_calc_sigma_from_tau tidal_rebx tidal_body 2 =
       Some (4 * 2 * Sim.G tidal_sim / (3 * r tidal_body ^ 5 * k2), [])
     /\ rebx_tides_calc_sigma_from_Q (fun _ _ _ => 5) tidal_rebx tidal_body primary_body 7 =
       Some (2 * Sim.G tidal_sim / (3 * 7 * r tidal_body ^ 5 * k2 * 5), []))
  /\ (rebx_get_param (ap tidal_body) "k2" = None \/ r tidal_body = 0 ->
      rebx_tides_calc_sigma_from_tau tidal_rebx tidal_body 2 =
        Some (0, [rebx_error sigma_from_tau_error])
      /\ rebx_tides_calc_sigma_from_Q (fun _ _ _ => 5) tidal_rebx tidal_body primary_body 7 =
        Some (0, [rebx_error sigma_from_Q_error])).
Proof.
  apply (sigma_helpers (fun _ _ _ => 5) tidal_rebx tidal_sim tidal_body primary_body 2 7).
  reflexivity.
Defined.

(** The two branches of the helpers on sample bodies: [tidal_body] has
    [k2 = 1] and radius 1, [primary_body] has no [k2]. *)
Example sigma_from_tau_sample :
  rebx_tides_calc_sigma_from_tau tidal_rebx tidal_body 3 = Some (4, []).
Proof.
  unfold rebx_tides_calc_sigma_from_tau. simpl.
  rewrite Rneqb_true by lra. do 2 f_equal. field.
Qed.

Example sigma_from_tau_without_k2 :
  rebx_tides_calc_sigma_from_tau tidal_rebx primary_body 3 =
  Some (0, [rebx_error sigma_from_tau_error]).
Proof. reflexivity. Qed.

(** ** Creation of the spin ODE *)

Lemma spin_initialize_count_tracked (particles : list reb_particle) (c i : nat)
    (p : reb_particle) :
  particles !! i = Some p ->
  spin_initialize_count particles c i = (if spin_tracked p then c + 1 else c)%nat.
Proof.
  intros Hi. unfold spin_initialize_count, spin_tracked, has_param. rewrite Hi.
  cbv zeta.
  destruct (rebx_get_param (ap p) "moi"), (rebx_get_param (ap p) "sx"),
    (rebx_get_param (ap p) "sy"), (rebx_get_param (ap p) "sz");
    reflexivity.
Qed.

(** The counting loop from index [k] on counts the tracked bodies among the
    next [n] particles. *)
Lemma spin_initialize_count_loop (particles : list reb_particle) (n k c : nat) :
  foldl (spin_initialize_count particles) c (seq k n) =
  (c + length (List.filter spin_tracked (take n (drop k particles))))%nat.
Proof.
  revert k c. induction n as [|n IH]; intros k c; simpl seq; simpl foldl.
  - rewrite take_0. simpl. lia.
  - rewrite IH. destruct (particles !! k) as [p|] eqn:Hk.
    + rewrite (drop_S _ _ _ Hk). simpl take. simpl List.filter.
      rewrite (spin_initialize_count_tracked _ _ _ _ Hk).
      destruct (spin_tracked p); simpl; lia.
    + apply lookup_ge_None in Hk.
      rewrite !drop_ge by lia. rewrite !take_nil. simpl.
      unfold spin_initialize_count.
      rewrite (proj2 (lookup_ge_None particles k)) by lia. lia.
Qed.

(** A write through a pointer to the last element of an array. *)
Lemma alter_last {A : Type} (f : A -> A) (l : list A) (a : A) :
  alter f (length l) (l ++ [a])%list = (l ++ [f a])%list.
Proof. induction l as [|b l IH]; simpl; [reflexivity | f_equal; exact IH]. Qed.

(** C10: [rebx_spin_initialize_ode] registers a spin ODE exactly when the
    number [N] of real bodies with [moi], [sx], [sy] and [sz] all set ([k2]
    plays no part) is positive: the ODE has length [3 N] and the derivative,
    pre-step and post-step callbacks, and the effect's parameter [ode] points
    to it; with [N = 0] the simulation and the effect are unchanged. *)
Theorem initialize_ode_registers (rebx : rebx_extras) (effect : rebx_force)
    (sim : reb_simulation) :
  Extras.sim rebx = Some sim ->
  let N := length (List.filter spin_tracked (real_particles sim)) in
  ((0 < N)%nat ->
     rebx_spin_initialize_ode rebx effect =
     Some (Extras.mk (Some (set_odes (Sim.odes sim ++ [spin_ode N]) sim)),
           Force.mk (<["ode" := length (Sim.odes sim)]> (Force.ap effect))))
  /\ (N = 0%nat -> rebx_spin_initialize_ode rebx effect = Some (rebx, effect)).
Proof.
  intros Hsim N. unfold rebx_spin_initialize_ode. rewrite Hsim. simpl.
  rewrite spin_initialize_count_loop, drop_0. simpl.
  fold (real_particles sim). fold N. split; intros HN.
  - rewrite decide_True by exact HN.
    unfold reb_create_ode, set_odes, rebx_set_param_pointer. simpl.
    rewrite !alter_last. unfold spin_ode, set_post_timestep, set_pre_timestep,
      set_derivatives, set_ref. simpl.
    replace (N * 3)%nat with (N + (N + (N + 0)))%nat by lia. reflexivity.
  - rewrite decide_False by lia. reflexivity.
Qed.

Lemma initialize_ode_registers_witness :
  let N := length (List.filter spin_tracked (real_particles tidal_sim)) in
  ((0 < N)%nat ->
     rebx_spin_initialize_ode tidal_rebx (Force.mk ∅) =
     Some (Extras.mk (Some (set_odes (Sim.odes tidal_sim ++ [spin_ode N]) tidal_sim)),
           Force.mk (<["ode" := length (Sim.odes tidal_sim)]> (Force.ap (Force.mk ∅)))))
  /\ (N = 0%nat ->
      rebx_spin_initialize_ode tidal_rebx (Force.mk ∅) = Some (tidal_rebx, Force.mk ∅)).
Proof.
  apply (initialize_ode_registers tidal_rebx (Force.mk ∅) tidal_sim). reflexivity.
Defined.

(** On the sample simulation one body is counted: an ODE of length 3. *)
Example initialize_ode_sample :
  rebx_spin_initialize_ode tidal_rebx (Force.mk ∅) =
  Some (Extras.mk (Some (set_odes [spin_ode 1] tidal_sim)),
        Force.mk {[ "ode" := 0%nat ]}).
Proof. reflexivity. Qed.

(** A body with [moi] and the spin but no [k2] is counted as well. *)
Example initialize_ode_without_k2 :
  let p := set_ap (list_to_map [("moi", 1); ("sx", 0); ("sy", 0); ("sz", 1)])
                  primary_body in
  rebx_spin_initialize_ode (Extras.mk (Some (Sim.mk 1 0 [p] []))) (Force.mk ∅) =
  Some (Extras.mk (Some (Sim.mk 1 0 [p] [spin_ode 1])), Force.mk {[ "ode" := 0%nat ]}).
Proof. reflexivity. Qed.

(** Without a counted body nothing changes. *)
Example initialize_ode_none :
  rebx_spin_initialize_ode (Extras.mk (Some (Sim.mk 1 0 [primary_body] []))) (Force.mk ∅) =
  Some (Extras.mk (Some (Sim.mk 1 0 [primary_body] [])), Force.mk ∅).
Proof. reflexivity. Qed.

(** ** The spin derivative function *)

Lemma array_set_Some (a : list R) (i : nat) (v : R) :
  (i < length a)%nat -> array_set a i v = Some (<[i := v]> a).
Proof. intros H. unfold array_set. rewrite decide_True by exact H. reflexivity. Qed.

Lemma array_add_Some (a : list R) (i : nat) (v old : R) :
  a !! i = Some old -> array_add a i v = Some (<[i := old + v]> a).
Proof. intros H. unfold array_add. rewrite H. reflexivity. Qed.

Lemma for_each_app {A B : Type} (body : A -> B -> option A) (a : A) (l k : list B) :
  for_each body a (l ++ k) = a' ← for_each body a l; for_each body a' k.
Proof.
  revert a. induction l as [|b l IH]; intros a; simpl; [reflexivity|].
  destruct (body a b) as [a'|]; simpl; [apply IH | reflexivity].
Qed.

Lemma slots3_Some (a : list R) (b : nat) (v : reb_vec3d) :
  slots3 a b = Some v <->
  a !! b = Some (Vec3d.x v) /\ a !! (b + 1)%nat = Some (Vec3d.y v)
  /\ a !! (b + 2)%nat = Some (Vec3d.z v).
Proof.
  unfold slots3. destruct v as [v1 v2 v3]. simpl.
  destruct (a !! b), (a !! (b + 1)%nat), (a !! (b + 2)%nat); simpl;
    split; try (intros H; injection H as -> -> ->; auto);
    try discriminate; intros (H1 & H2 & H3); congruence.
Qed.

Lemma vadd_vzero_l (a : reb_vec3d) : vadd vzero a = a.
Proof. destruct a. unfold vadd, vzero. simpl. f_equal; ring. Qed.

Lemma vadd_assoc (a b c : reb_vec3d) : vadd (vadd a b) c = vadd a (vadd b c).
Proof. apply vec_eq; simpl; ring. Qed.

(** One round of the inner loop adds the torque of the pair to the three
    slots of the body. *)
Lemma spin_derivatives_pair_spec (particles : list reb_particle) (G : R) (i j : nat)
    (pi pj : reb_particle) (k2 sigma_in moi : R) (Omega v0 : reb_vec3d)
    (Nspins : nat) (yDot : list R) :
  i <> j -> particles !! j = Some pj ->
  slots3 yDot (3 * Nspins) = Some v0 ->
  exists yDot',
    spin_derivatives_pair particles G i pi k2 sigma_in moi
      (Vec3d.x Omega) (Vec3d.y Omega) (Vec3d.z Omega) Nspins yDot j = Some yDot'
    /\ updated3 yDot (3 * Nspins)
         (vadd v0 (pair_torque G pi k2 sigma_in moi Omega pj)) yDot'.
Proof.
  intros Hij Hj Hv. apply slots3_Some in Hv as (H0 & H1 & H2).
  unfold spin_derivatives_pair. rewrite decide_True by exact Hij.
  rewrite Hj. simpl. cbv zeta.
  set (tf := rebx_calculate_spin_orbit_accelerations pi pj G k2 sigma_in
               (Vec3d.x Omega) (Vec3d.y Omega) (Vec3d.z Omega)).
  rewrite (array_add_Some _ _ _ _ H0). simpl.
  rewrite (array_add_Some _ _ _ (Vec3d.y v0))
    by (rewrite list_lookup_insert_ne by lia; exact H1). simpl.
  rewrite (array_add_Some _ _ _ (Vec3d.z v0))
    by (rewrite !list_lookup_insert_ne by lia; exact H2).
  eexists. split; [reflexivity|].
  pose proof (lookup_lt_Some _ _ _ H0) as L0.
  pose proof (lookup_lt_Some _ _ _ H1) as L1.
  pose proof (lookup_lt_Some _ _ _ H2) as L2.
  split; [|split].
  - rewrite !length_insert. reflexivity.
  - apply slots3_Some. unfold pair_torque, reduced_mass. fold tf.
    cbv beta iota delta [vadd vscale vcross vsub pos Vec3d.x Vec3d.y Vec3d.z].
    split; [|split].
    + rewrite !list_lookup_insert_ne by lia.
      rewrite list_lookup_insert_eq by exact L0. f_equal. unfold Rdiv. ring.
    + rewrite list_lookup_insert_ne by lia.
      rewrite list_lookup_insert_eq by (rewrite length_insert; exact L1).
      f_equal. unfold Rdiv. ring.
    + rewrite list_lookup_insert_eq by (rewrite !length_insert; exact L2).
      f_equal. unfold Rdiv. ring.
  - intros k K0 K1 K2. rewrite !list_lookup_insert_ne by lia. reflexivity.
Qed.

Lemma updated3_trans (a a1 a2 : list R) (b : nat) (v w : reb_vec3d) :
  updated3 a b v a1 -> updated3 a1 b w a2 -> updated3 a b w a2.
Proof.
  intros (L1 & _ & O1) (L2 & S2 & O2). split; [congruence|]. split; [exact S2|].
  intros k K0 K1 K2. rewrite O2, O1 by assumption. reflexivity.
Qed.

Lemma spin_derivatives_pair_self (particles : list reb_particle) (G : R) (i : nat)
    (pi : reb_particle) (k2 sigma_in moi sx sy sz : R) (Nspins : nat)
    (yDot : list R) :
  spin_derivatives_pair particles G i pi k2 sigma_in moi sx sy sz Nspins yDot i
  = Some yDot.
Proof.
  unfold spin_derivatives_pair.
  destruct (decide (i <> i)) as [Hne|_]; [contradiction | reflexivity].
Qed.

(** The inner loop adds the torques of the other bodies. *)
Lemma spin_derivatives_inner_loop (particles : list reb_particle) (G : R) (i : nat)
    (pi : reb_particle) (k2 sigma_in moi : R) (Omega : reb_vec3d) (Nspins : nat)
    (js : list nat) (yDot : list R) (v0 : reb_vec3d) :
  (forall j, j ∈ js -> is_Some (particles !! j)) ->
  slots3 yDot (3 * Nspins) = Some v0 ->
  exists yDot',
    for_each (spin_derivatives_pair particles G i pi k2 sigma_in moi
                (Vec3d.x Omega) (Vec3d.y Omega) (Vec3d.z Omega) Nspins) yDot js
    = Some yDot'
    /\ updated3 yDot (3 * Nspins)
         (vadd v0 (vsum (map (pair_torque G pi k2 sigma_in moi Omega)
                             (other_bodies particles i js)))) yDot'.
Proof.
  revert yDot v0. induction js as [|j js IH]; intros yDot v0 Hjs Hv.
  - exists yDot. split; [reflexivity|]. simpl. rewrite vadd_vzero_r.
    split; [reflexivity|]. split; [exact Hv|]. reflexivity.
  - assert (Hjs' : forall j', j' ∈ js -> is_Some (particles !! j'))
      by (intros j' Hj'; apply Hjs; right; exact Hj').
    simpl for_each. unfold other_bodies. simpl omap.
    destruct (decide (i = j)) as [Hij|Hij].
    + subst j. rewrite spin_derivatives_pair_self. simpl.
      apply IH; assumption.
    + destruct (Hjs j) as [pj Hj]; [left|].
      destruct (spin_derivatives_pair_spec particles G i j pi pj k2 sigma_in moi
                  Omega v0 Nspins yDot Hij Hj Hv) as (yDot1 & E1 & U1).
      rewrite E1, Hj. simpl.
      destruct U1 as (L1 & S1 & O1).
      destruct (IH yDot1 _ Hjs' S1) as (yDot' & E' & U').
      exists yDot'. split; [exact E'|].
      rewrite <- vadd_assoc.
      eapply updated3_trans; [split; [exact L1 | split; [exact S1 | exact O1]]|].
      exact U'.
Qed.

(** The rank of a body among those whose spin evolves. *)
Lemma spin_rank_S (sim : reb_simulation) (n : nat) (p : reb_particle) :
  Sim.particles sim !! n = Some p ->
  spin_rank sim (S n) = (spin_rank sim n + (if spin_evolving p then 1 else 0))%nat.
Proof.
  intros Hn. unfold spin_rank. rewrite (take_S_r _ _ _ Hn).
  rewrite List.filter_app, length_app. simpl.
  destruct (spin_evolving p); reflexivity.
Qed.

Lemma spin_rank_mono (sim : reb_simulation) (n k : nat) :
  (n <= k)%nat -> (spin_rank sim n <= spin_rank sim k)%nat.
Proof.
  intros Hnk. unfold spin_rank.
  replace k with (n + (k - n))%nat by lia.
  rewrite <- take_take_drop, List.filter_app, length_app. lia.
Qed.

(** Reading an array at consecutive indices. *)
Lemma lookups_seq {A : Type} (l : list A) (k n : nat) :
  omap (fun j => l !! j) (seq k n) = take n (drop k l).
Proof.
  revert k. induction n as [|n IH]; intros k; simpl seq; simpl omap.
  - rewrite take_0. reflexivity.
  - rewrite IH. destruct (l !! k) as [a|] eqn:Hk.
    + rewrite (drop_S _ _ _ Hk). reflexivity.
    + apply lookup_ge_None in Hk. rewrite !drop_ge by lia.
      rewrite !take_nil. reflexivity.
Qed.

Lemma other_bodies_notin (particles : list reb_particle) (i : nat) (js : list nat) :
  i ∉ js -> other_bodies particles i js = omap (fun j => particles !! j) js.
Proof.
  induction js as [|j js IH]; intros Hi; [reflexivity|].
  apply not_elem_of_cons in Hi as [Hij Hjs].
  change (other_bodies particles i (j :: js))
    with (match (if decide (i = j) then None else particles !! j) with
          | Some p => p :: other_bodies particles i js
          | None => other_bodies particles i js
          end).
  rewrite decide_False by exact Hij. rewrite IH by exact Hjs. reflexivity.
Qed.

Lemma other_bodies_app (particles : list reb_particle) (i : nat) (l k : list nat) :
  other_bodies particles i (l ++ k) =
  (other_bodies particles i l ++ other_bodies particles i k)%list.
Proof. apply omap_app. Qed.

Lemma other_bodies_self (particles : list reb_particle) (i : nat) (js : list nat) :
  other_bodies particles i (i :: js) = other_bodies particles i js.
Proof. unfold other_bodies. simpl. rewrite decide_True by reflexivity. reflexivity. Qed.

(** Every other real body: skipping [i] in the loop deletes the [i]-th body. *)
Lemma other_bodies_seq (particles : list reb_particle) (i n : nat) :
  other_bodies particles i (seq 0 n) = delete i (take n particles).
Proof.
  rewrite delete_take_drop, take_take.
  destruct (decide (i < n)%nat) as [Hlt|Hge].
  - replace n with (i + S (n - S i))%nat at 1 by lia.
    rewrite seq_app.
    change (seq (0 + i) (S (n - S i))) with (i :: seq (S i) (n - S i)).
    rewrite other_bodies_app, other_bodies_self.
    rewrite !other_bodies_notin, !lookups_seq.
    + rewrite drop_0, Nat.min_l by lia.
      rewrite take_drop_commute. do 3 f_equal. lia.
    + rewrite elem_of_seq. lia.
    + rewrite elem_of_seq. lia.
  - rewrite other_bodies_notin by (rewrite elem_of_seq; lia).
    rewrite lookups_seq, drop_0, Nat.min_r by lia.
    rewrite (drop_ge (take n particles)) by (rewrite length_take; lia).
    rewrite app_nil_r. reflexivity.
Qed.

Lemma spin_evolving_params (p : reb_particle) :
  spin_evolving p = true <->
  is_Some (rebx_get_param (ap p) "k2") /\ is_Some (rebx_get_param (ap p) "moi").
Proof.
  unfold spin_evolving, has_param.
  rewrite andb_true_iff, !bool_decide_eq_true. reflexivity.
Qed.

Lemma slots3_unchanged (a a' : list R) (b c : nat) (v : reb_vec3d) :
  (c + 2 < b)%nat ->
  (forall k, k <> b -> k <> (b + 1)%nat -> k <> (b + 2)%nat -> a' !! k = a !! k) ->
  slots3 a c = Some v -> slots3 a' c = Some v.
Proof.
  intros Hc Ho Hv. unfold slots3 in *. rewrite !Ho by lia. exact Hv.
Qed.

(** One round of the outer loop keeps the invariant. *)
Lemma spin_derivatives_body_spec (sim : reb_simulation) (y yDot0 : list R) (n : nat)
    (st : nat * list R) :
  (n < N_real sim)%nat ->
  (3 * spin_rank sim (N_real sim) <= length yDot0)%nat ->
  (3 * spin_rank sim (N_real sim) <= length y)%nat ->
  derivatives_invariant sim y yDot0 n st ->
  exists st', spin_derivatives_body sim y st n = Some st'
              /\ derivatives_invariant sim y yDot0 (S n) st'.
Proof.
  intros Hn HyDot Hy. destruct st as [Nspins yDot]. intros (HN & HL & HS).
  cbn [fst snd] in HN, HL, HS. subst Nspins.
  assert (Hlen : (N_real sim <= length (Sim.particles sim))%nat)
    by (unfold N_real; lia).
  destruct (lookup_lt_is_Some_2 (Sim.particles sim) n) as [pi Hpi]; [lia|].
  pose proof (spin_rank_S sim n pi Hpi) as HrS.
  pose proof (spin_rank_mono sim (S n) (N_real sim) Hn) as Hmono.
  assert (Hold : forall i pi', (i < n)%nat -> Sim.particles sim !! i = Some pi' ->
            spin_evolving pi' = true ->
            (3 * spin_rank sim i + 2 < 3 * spin_rank sim n)%nat).
  { intros i pi' Hi Hpi' He.
    pose proof (spin_rank_S sim i pi' Hpi') as Hr. rewrite He in Hr.
    pose proof (spin_rank_mono sim (S i) n Hi). lia. }
  unfold spin_derivatives_body. rewrite Hpi.
  set (b := (3 * spin_rank sim n)%nat) in *. simpl. cbv zeta.
  destruct (rebx_get_param (ap pi) "k2") as [k2|] eqn:Hk2;
    [destruct (rebx_get_param (ap pi) "moi") as [moi|] eqn:Hmoi|].
  - (* the spin of the body evolves *)
    assert (He : spin_evolving pi = true)
      by (apply spin_evolving_params; rewrite Hk2, Hmoi; eauto).
    rewrite He in HrS.
    rewrite array_set_Some by lia. simpl.
    rewrite array_set_Some by (rewrite length_insert; lia). simpl.
    rewrite array_set_Some by (rewrite !length_insert; lia). simpl.
    destruct (lookup_lt_is_Some_2 y b) as [sx Hsx]; [lia|].
    destruct (lookup_lt_is_Some_2 y (b + 1)) as [sy Hsy]; [lia|].
    destruct (lookup_lt_is_Some_2 y (b + 2)) as [sz Hsz]; [lia|].
    unfold array_get. rewrite Hsx, Hsy, Hsz. simpl.
    set (yDot1 := <[(b + 2)%nat := 0]> (<[(b + 1)%nat := 0]> (<[b := 0]> yDot))).
    assert (H1 : slots3 yDot1 b = Some vzero).
    { apply slots3_Some. unfold yDot1, vzero. simpl. split; [|split].
      - rewrite !list_lookup_insert_ne by lia.
        apply list_lookup_insert_eq. lia.
      - rewrite list_lookup_insert_ne by lia.
        apply list_lookup_insert_eq. rewrite length_insert. lia.
      - apply list_lookup_insert_eq. rewrite !length_insert. lia. }
    set (sigma_in := match rebx_get_param (ap pi) "sigma" with
                     | Some s => s | None => 0 end).
    destruct (spin_derivatives_inner_loop (Sim.particles sim) (Sim.G sim) n pi
                k2 sigma_in moi (Vec3d.mk sx sy sz) (spin_rank sim n)
                (seq 0 (N_real sim)) yDot1 vzero) as (yDot' & E & L' & S' & O').
    { intros j Hj. apply elem_of_seq in Hj. apply lookup_lt_is_Some_2. lia. }
    { exact H1. }
    simpl in E. fold b in E. rewrite E. simpl.
    eexists. split; [reflexivity|].
    split; [simpl; lia|]. split.
    { simpl. rewrite L'. unfold yDot1. rewrite !length_insert. exact HL. }
    intros i pi' Hi Hpi' He'. cbn [fst snd].
    destruct (decide (i = n)) as [->|Hne].
    + rewrite Hpi in Hpi'. injection Hpi' as <-. fold b in S'. fold b.
      rewrite S'. f_equal. rewrite vadd_vzero_l.
      unfold spin_torque. rewrite Hk2, Hmoi. cbv zeta. simpl default.
      rewrite other_bodies_seq. fold (real_particles sim).
      unfold spin_at. fold b. rewrite Hsx, Hsy, Hsz. simpl default.
      unfold sigma_in. destruct (rebx_get_param (ap pi) "sigma"); reflexivity.
    + assert (Hi' : (i < n)%nat) by lia.
      pose proof (Hold i pi' Hi' Hpi' He') as Hlt. fold b in Hlt.
      apply (slots3_unchanged yDot1 yDot' b); [exact Hlt | exact O'|].
      apply (slots3_unchanged yDot yDot1 b); [exact Hlt | | apply (HS i pi'); assumption].
      intros k K0 K1 K2. unfold yDot1. rewrite !list_lookup_insert_ne by lia.
      reflexivity.
  - (* no moment of inertia *)
    assert (He : spin_evolving pi = false).
    { apply not_true_is_false. intros He. apply spin_evolving_params in He as [_ [? He]].
      congruence. }
    rewrite He in HrS. eexists. split; [reflexivity|].
    split; [simpl; lia|]. split; [exact HL|].
    intros i pi' Hi Hpi' He'. cbn [fst snd].
    destruct (decide (i = n)) as [->|Hne]; [congruence|].
    apply HS; [lia | assumption | assumption].
  - (* no Love number *)
    assert (He : spin_evolving pi = false).
    { apply not_true_is_false. intros He. apply spin_evolving_params in He as [[? He] _].
      congruence. }
    rewrite He in HrS. eexists. split; [reflexivity|].
    split; [simpl; lia|]. split; [exact HL|].
    intros i pi' Hi Hpi' He'. cbn [fst snd].
    destruct (decide (i = n)) as [->|Hne]; [congruence|].
    apply HS; [lia | assumption | assumption].
Qed.

(** The outer loop reaches every real body. *)
Lemma spin_derivatives_loop (sim : reb_simulation) (y yDot0 : list R) (n : nat) :
  (n <= N_real sim)%nat ->
  (3 * spin_rank sim (N_real sim) <= length yDot0)%nat ->
  (3 * spin_rank sim (N_real sim) <= length y)%nat ->
  exists st, for_each (spin_derivatives_body sim y) (0%nat, yDot0) (seq 0 n) = Some st
             /\ derivatives_invariant sim y yDot0 n st.
Proof.
  intros Hn HyDot Hy. induction n as [|n IH].
  - exists (0%nat, yDot0). split; [reflexivity|].
    split; [unfold spin_rank; rewrite take_0; reflexivity|].
    split; [reflexivity|]. intros i pi Hi. lia.
  - destruct IH as (st & E & Inv); [lia|].
    destruct (spin_derivatives_body_spec sim y yDot0 n st) as (st' & E' & Inv');
      [lia | assumption | assumption | assumption |].
    exists st'. split; [|exact Inv'].
    rewrite seq_S, for_each_app, E. simpl. rewrite E'. reflexivity.
Qed.

(** C2: when the declared length of the ODE is three times the number of
    real bodies with [k2] and [moi], the derivative function returns, and
    for every such body [i] the three output slots of its rank hold the sum,
    over every other real body [j], of [(r_i - r_j) x F_ij] scaled by
    [- mu_ij / moi_i], where [F_ij] is the kernel force with [i] as source,
    [sigma] read if present and 0 otherwise, and the spin read from the
    three slots of [i] in [y]; the time [t] is not used.  The arrays [y] and
    [yDot] hold at least as many slots as the ODE declares. *)
Theorem spin_derivatives_torque (sim : reb_simulation) (ode : reb_ode)
    (yDot y : list R) (t : R) :
  Ode.length ode = (3 * length (List.filter spin_evolving (real_particles sim)))%nat ->
  (Ode.length ode <= length y)%nat -> (Ode.length ode <= length yDot)%nat ->
  exists yDot',
    rebx_spin_derivatives sim ode yDot y t = Some (Returned yDot')
    /\ length yDot' = length yDot
    /\ (forall i pi, (i < N_real sim)%nat -> Sim.particles sim !! i = Some pi ->
          is_Some (rebx_get_param (ap pi) "k2") ->
          is_Some (rebx_get_param (ap pi) "moi") ->
          slots3 yDot' (3 * spin_rank sim i) = Some (spin_torque sim y i pi))
    /\ forall t', rebx_spin_derivatives sim ode yDot y t' =
                  rebx_spin_derivatives sim ode yDot y t.
Proof.
  intros Hode Hy HyDot.
  assert (Hrank : spin_rank sim (N_real sim) =
                  length (List.filter spin_evolving (real_particles sim)))
    by reflexivity.
  destruct (spin_derivatives_loop sim y yDot (N_real sim)) as ([Nspins yDot'] & E & Inv);
    [lia | lia | lia |].
  destruct Inv as (HN & HL & HS). cbn [fst snd] in HN, HL, HS.
  exists yDot'. split; [|split; [exact HL | split]].
  - unfold rebx_spin_derivatives. rewrite E. simpl.
    rewrite decide_False by lia. reflexivity.
  - intros i pi Hi Hpi Hk Hm. apply HS; [exact Hi | exact Hpi|].
    apply spin_evolving_params. split; assumption.
  - intros t'. reflexivity.
Qed.

Lemma spin_derivatives_torque_witness :
  exists yDot',
    rebx_spin_derivatives tidal_sim (spin_ode 1) [7; 7; 7] [0; 0; 1] 0 =
      Some (Returned yDot')
    /\ length yDot' = length [7; 7; 7]
    /\ (forall i pi, (i < N_real tidal_sim)%nat ->
          Sim.particles tidal_sim !! i = Some pi ->
          is_Some (rebx_get_param (ap pi) "k2") ->
          is_Some (rebx_get_param (ap pi) "moi") ->
          slots3 yDot' (3 * spin_rank tidal_sim i) =
            Some (spin_torque tidal_sim [0; 0; 1] i pi))
    /\ forall t', rebx_spin_derivatives tidal_sim (spin_ode 1) [7; 7; 7] [0; 0; 1] t' =
                  rebx_spin_derivatives tidal_sim (spin_ode 1) [7; 7; 7] [0; 0; 1] 0.
Proof.
  apply (spin_derivatives_torque tidal_sim (spin_ode 1) [7; 7; 7] [0; 0; 1] 0);
    [reflexivity | simpl; lia | simpl; lia].
Defined.

(** The derivative on the sample simulation: the retrograde body is spun
    down about the z axis. *)
Example spin_derivatives_sample :
  rebx_spin_derivatives tidal_sim (spin_ode 1) [7; 7; 7] [0; 0; 1] 0
  = Some (Returned [0; 0; -9]).
Proof.
  pose (F := rebx_calculate_spin_orbit_accelerations tidal_body primary_body 1 1 1 0 0 1).
  pose (c := - (1 * 1 / (1 + 1)) / 1).
  transitivity (Some (Returned
    [0 + ((0 - 0) * Vec3d.z F - (0 - 0) * Vec3d.y F) * c;
     0 + ((0 - 0) * Vec3d.x F - (1 - 0) * Vec3d.z F) * c;
     0 + ((1 - 0) * Vec3d.y F - (0 - 0) * Vec3d.x F) * c])).
  - reflexivity.
  - unfold F, c. rewrite kernel_tidal_body. simpl. repeat f_equal; field.
Qed.

(** ** The spin state synchronizer *)

Lemma sync_rank_S (sim : reb_simulation) (n : nat) (p : reb_particle) :
  Sim.particles sim !! n = Some p ->
  sync_rank sim (S n) = (sync_rank sim n + (if has_param "k2" p then 1 else 0))%nat.
Proof.
  intros Hn. unfold sync_rank. rewrite (take_S_r _ _ _ Hn).
  rewrite List.filter_app, length_app. simpl.
  destruct (has_param "k2" p); reflexivity.
Qed.

Lemma sync_rank_mono (sim : reb_simulation) (n k : nat) :
  (n <= k)%nat -> (sync_rank sim n <= sync_rank sim k)%nat.
Proof.
  intros Hnk. unfold sync_rank.
  replace k with (n + (k - n))%nat by lia.
  rewrite <- take_take_drop, List.filter_app, length_app. lia.
Qed.

Lemma has_param_true (name : string) (p : reb_particle) :
  has_param name p = true <-> is_Some (rebx_get_param (ap p) name).
Proof. unfold has_param. apply bool_decide_eq_true. Qed.

Lemma has_param_false (name : string) (p : reb_particle) :
  has_param name p = false <-> rebx_get_param (ap p) name = None.
Proof.
  unfold has_param. rewrite bool_decide_eq_false, <- eq_None_not_Some. reflexivity.
Qed.

(** One round of the pre-step loop keeps the invariant, when a body with
    [k2] has its three spin tags. *)
Lemma spin_sync_pre_body_spec (sim : reb_simulation) (y_start : list R) (n : nat)
    (st : nat * list R) :
  (n < N_real sim)%nat ->
  (3 * sync_rank sim (N_real sim) <= length y_start)%nat ->
  (forall p, Sim.particles sim !! n = Some p -> has_param "k2" p = true ->
     has_param "sx" p = true /\ has_param "sy" p = true /\ has_param "sz" p = true) ->
  sync_pre_invariant sim y_start n st ->
  exists st', spin_sync_pre_body sim st n = Some st'
              /\ sync_pre_invariant sim y_start (S n) st'.
Proof.
  intros Hn Hy Htags. destruct st as [Nspins ode_y]. intros (HN & HL & HS).
  cbn [fst snd] in HN, HL, HS. subst Nspins.
  assert (Hlen : (N_real sim <= length (Sim.particles sim))%nat)
    by (unfold N_real; lia).
  destruct (lookup_lt_is_Some_2 (Sim.particles sim) n) as [p Hp]; [lia|].
  pose proof (sync_rank_S sim n p Hp) as HrS.
  pose proof (sync_rank_mono sim (S n) (N_real sim) Hn) as Hmono.
  assert (Hold : forall i p', (i < n)%nat -> Sim.particles sim !! i = Some p' ->
            has_param "k2" p' = true ->
            (3 * sync_rank sim i + 2 < 3 * sync_rank sim n)%nat).
  { intros i p' Hi Hp' He.
    pose proof (sync_rank_S sim i p' Hp') as Hr. rewrite He in Hr.
    pose proof (sync_rank_mono sim (S i) n Hi). lia. }
  unfold spin_sync_pre_body. rewrite Hp.
  set (b := (3 * sync_rank sim n)%nat) in *. simpl. cbv zeta.
  destruct (rebx_get_param (ap p) "k2") as [k2|] eqn:Hk2.
  - assert (Hk : has_param "k2" p = true) by (apply has_param_true; rewrite Hk2; eauto).
    rewrite Hk in HrS.
    destruct (Htags p Hp Hk) as (Hsx & Hsy & Hsz).
    apply has_param_true in Hsx as [sx Hsx].
    apply has_param_true in Hsy as [sy Hsy].
    apply has_param_true in Hsz as [sz Hsz].
    rewrite Hsx. simpl. rewrite array_set_Some by lia. simpl.
    rewrite Hsy. simpl. rewrite array_set_Some by (rewrite length_insert; lia). simpl.
    rewrite Hsz. simpl. rewrite array_set_Some by (rewrite !length_insert; lia). simpl.
    eexists. split; [reflexivity|].
    split; [simpl; lia|]. split; [simpl; rewrite !length_insert; exact HL|].
    intros i p' Hi Hp' Hk'. cbn [fst snd].
    destruct (decide (i = n)) as [->|Hne].
    + rewrite Hp in Hp'. injection Hp' as <-. fold b.
      apply slots3_Some. unfold spin_of. rewrite Hsx, Hsy, Hsz. simpl.
      split; [|split].
      * rewrite !list_lookup_insert_ne by lia. apply list_lookup_insert_eq. lia.
      * rewrite list_lookup_insert_ne by lia.
        apply list_lookup_insert_eq. rewrite length_insert. lia.
      * apply list_lookup_insert_eq. rewrite !length_insert. lia.
    + assert (Hi' : (i < n)%nat) by lia.
      pose proof (Hold i p' Hi' Hp' Hk') as Hlt. fold b in Hlt.
      apply (slots3_unchanged ode_y _ b); [exact Hlt | | apply (HS i p'); assumption].
      intros k K0 K1 K2. rewrite !list_lookup_insert_ne by lia. reflexivity.
  - assert (Hk : has_param "k2" p = false) by (apply has_param_false; exact Hk2).
    rewrite Hk in HrS. eexists. split; [reflexivity|].
    split; [simpl; lia|]. split; [exact HL|].
    intros i p' Hi Hp' Hk'. cbn [fst snd].
    destruct (decide (i = n)) as [->|Hne]; [congruence|].
    apply HS; [lia | assumption | assumption].
Qed.

Lemma spin_sync_pre_loop (sim : reb_simulation) (y_start : list R) (n : nat) :
  (n <= N_real sim)%nat ->
  (3 * sync_rank sim (N_real sim) <= length y_start)%nat ->
  (forall i p, (i < N_real sim)%nat -> Sim.particles sim !! i = Some p ->
     has_param "k2" p = true ->
     has_param "sx" p = true /\ has_param "sy" p = true /\ has_param "sz" p = true) ->
  exists st, for_each (spin_sync_pre_body sim) (0%nat, y_start) (seq 0 n) = Some st
             /\ sync_pre_invariant sim y_start n st.
Proof.
  intros Hn Hy Htags. induction n as [|n IH].
  - exists (0%nat, y_start). split; [reflexivity|].
    split; [unfold sync_rank; rewrite take_0; reflexivity|].
    split; [reflexivity|]. intros i p Hi. lia.
  - destruct IH as (st & E & Inv); [lia|].
    destruct (spin_sync_pre_body_spec sim y_start n st) as (st' & E' & Inv');
      [lia | assumption | intros p Hp; apply (Htags n); [lia | exact Hp] | assumption |].
    exists st'. split; [|exact Inv'].
    rewrite seq_S, for_each_app, E. simpl. rewrite E'. reflexivity.
Qed.

(** One round of the post-step loop keeps the invariant. *)
Lemma spin_sync_post_body_spec (sim : reb_simulation) (y0 : list R) (n : nat)
    (st : nat * list reb_particle) :
  (n < N_real sim)%nat ->
  (3 * sync_rank sim (N_real sim) <= length y0)%nat ->
  sync_post_invariant sim y0 n st ->
  exists st', spin_sync_post_body y0 st n = Some st'
              /\ sync_post_invariant sim y0 (S n) st'.
Proof.
  intros Hn Hy. destruct st as [Nspins cur]. intros (HN & HL & HS).
  cbn [fst snd] in HN, HL, HS. subst Nspins.
  assert (Hlen : (N_real sim <= length (Sim.particles sim))%nat)
    by (unfold N_real; lia).
  destruct (lookup_lt_is_Some_2 (Sim.particles sim) n) as [p Hp]; [lia|].
  pose proof (sync_rank_S sim n p Hp) as HrS.
  pose proof (sync_rank_mono sim (S n) (N_real sim) Hn) as Hmono.
  pose proof (HS n p Hp) as Hcur. rewrite decide_False in Hcur by lia.
  unfold spin_sync_post_body. rewrite Hcur.
  set (b := (3 * sync_rank sim n)%nat) in *. simpl. cbv zeta.
  destruct (rebx_get_param (ap p) "k2") as [k2|] eqn:Hk2.
  - assert (Hk : has_param "k2" p = true) by (apply has_param_true; rewrite Hk2; eauto).
    rewrite Hk in HrS.
    destruct (lookup_lt_is_Some_2 y0 b) as [vx Hvx]; [lia|].
    destruct (lookup_lt_is_Some_2 y0 (b + 1)) as [vy Hvy]; [lia|].
    destruct (lookup_lt_is_Some_2 y0 (b + 2)) as [vz Hvz]; [lia|].
    unfold array_get. rewrite Hvx, Hvy, Hvz. simpl.
    eexists. split; [reflexivity|].
    split; [simpl; lia|]. split; [simpl; rewrite !length_alter; exact HL|].
    intros i p' Hp'. cbn [fst snd].
    destruct (decide (i = n)) as [->|Hne].
    + rewrite Hp in Hp'. injection Hp' as <-.
      rewrite decide_True by lia. rewrite Hk.
      rewrite !list_lookup_alter_eq, Hcur. simpl.
      unfold with_spin, spin_at. fold b. rewrite Hvx, Hvy, Hvz. reflexivity.
    + rewrite !list_lookup_alter_ne by congruence.
      rewrite (HS i p' Hp').
      destruct (decide (i < n)%nat), (decide (i < S n)%nat); try lia; reflexivity.
  - assert (Hk : has_param "k2" p = false) by (apply has_param_false; exact Hk2).
    rewrite Hk in HrS. eexists. split; [reflexivity|].
    split; [simpl; lia|]. split; [exact HL|].
    intros i p' Hp'. cbn [fst snd]. rewrite (HS i p' Hp').
    destruct (decide (i = n)) as [->|Hne].
    + rewrite Hp in Hp'. injection Hp' as <-.
      rewrite decide_False by lia. rewrite decide_True by lia. rewrite Hk.
      reflexivity.
    + destruct (decide (i < n)%nat), (decide (i < S n)%nat); try lia; reflexivity.
Qed.

Lemma spin_sync_post_loop (sim : reb_simulation) (y0 : list R) (n : nat) :
  (n <= N_real sim)%nat ->
  (3 * sync_rank sim (N_real sim) <= length y0)%nat ->
  exists st, for_each (spin_sync_post_body y0) (0%nat, Sim.particles sim) (seq 0 n)
             = Some st
             /\ sync_post_invariant sim y0 n st.
Proof.
  intros Hn Hy. induction n as [|n IH].
  - exists (0%nat, Sim.particles sim). split; [reflexivity|].
    split; [unfold sync_rank; rewrite take_0; reflexivity|].
    split; [reflexivity|]. intros i p Hp. cbn [fst snd].
    rewrite decide_False by lia. exact Hp.
  - destruct IH as (st & E & Inv); [lia|].
    destruct (spin_sync_post_body_spec sim y0 n st) as (st' & E' & Inv');
      [lia | assumption | assumption |].
    exists st'. split; [|exact Inv'].
    rewrite seq_S, for_each_app, E. simpl. rewrite E'. reflexivity.
Qed.

(** With consistent tags the two ranks agree on the real bodies. *)
Lemma consistent_ranks (sim : reb_simulation) (n : nat) :
  consistent_tags sim -> (n <= N_real sim)%nat ->
  sync_rank sim n = tracked_rank sim n.
Proof.
  intros Hc Hn. unfold sync_rank, tracked_rank. f_equal.
  apply List.filter_ext_in. intros p Hin. apply Hc.
  apply list_elem_of_In in Hin. unfold real_particles.
  apply elem_of_take in Hin as (i & Hi & Hlt).
  apply elem_of_take. exists i. split; [exact Hi | lia].
Qed.

Lemma real_particle_lookup (sim : reb_simulation) (i : nat) (p : reb_particle) :
  (i < N_real sim)%nat -> Sim.particles sim !! i = Some p -> p ∈ real_particles sim.
Proof.
  intros Hi Hp. unfold real_particles. apply elem_of_take. exists i. split; assumption.
Qed.

Lemma spin_tracked_tags (p : reb_particle) :
  spin_tracked p = true ->
  has_param "sx" p = true /\ has_param "sy" p = true /\ has_param "sz" p = true.
Proof.
  unfold spin_tracked. rewrite !andb_true_iff. tauto.
Qed.

(** The length check that ends the three callbacks. *)
Lemma checked_eq {A : Type} (ode : reb_ode) (N Nspins : nat) (status : Z) (a : A) :
  Nspins = N ->
  (if decide (Ode.length ode <> (Nspins * 3)%nat)
   then Some (Exited status [reb_error ode_length_error] a)
   else Some (Returned a)) = Some (checked ode N status a).
Proof.
  intros ->. unfold checked.
  destruct (decide (Ode.length ode <> (N * 3)%nat)),
    (decide (Ode.length ode = (3 * N)%nat)); try lia; reflexivity.
Qed.

(** C4, as the code has it: on a configuration whose real bodies with [k2]
    are those counted at the creation of the ODE ([moi], [sx], [sy], [sz]),
    [N] of them, with three slots for each in the vectors, the pre-step
    and the post-step call run their copy loop and then compare the length of
    the ODE with [3 N]; a mismatch is reported and ends the run.  The
    pre-step call writes the spins to the working vector only; the post-step
    call has overwritten the spin tags of the [N] bodies whether or not it
    ends the run. *)
Theorem sync_length_check (sim : reb_simulation) (ode : reb_ode) (y0 : list R) :
  consistent_tags sim ->
  let N := length (List.filter spin_tracked (real_particles sim)) in
  (3 * N <= length (Ode.y ode))%nat -> (3 * N <= length y0)%nat ->
  (exists y',
     rebx_spin_sync_pre sim ode y0 = Some (checked ode N 1 (set_y y' ode))
     /\ length y' = length (Ode.y ode)
     /\ forall i p, (i < N_real sim)%nat -> Sim.particles sim !! i = Some p ->
          spin_tracked p = true ->
          slots3 y' (3 * tracked_rank sim i) = Some (spin_of p))
  /\ (exists particles',
        rebx_spin_sync_post sim ode y0 =
          Some (checked ode N 0 (set_particles particles' sim))
        /\ length particles' = length (Sim.particles sim)
        /\ forall i p, Sim.particles sim !! i = Some p ->
             particles' !! i =
             Some (if decide (i < N_real sim)%nat
                   then if spin_tracked p
                        then with_spin (spin_at y0 (tracked_rank sim i)) p
                        else p
                   else p)).
Proof.
  intros Hc N Hy Hy0.
  assert (HN : sync_rank sim (N_real sim) = N)
    by (rewrite consistent_ranks by (assumption || lia); reflexivity).
  split.
  - destruct (spin_sync_pre_loop sim (Ode.y ode) (N_real sim))
      as ([Nspins y'] & E & HNs & HL & HS); [lia | lia | |].
    { intros i p Hi Hp Hk. apply spin_tracked_tags.
      rewrite <- (Hc p (real_particle_lookup sim i p Hi Hp)). exact Hk. }
    cbn [fst snd] in HNs, HL, HS. exists y'. split; [|split; [exact HL|]].
    + unfold rebx_spin_sync_pre. rewrite E. apply checked_eq. congruence.
    + intros i p Hi Hp Ht.
      rewrite <- consistent_ranks by (assumption || lia).
      apply HS; [exact Hi | exact Hp|].
      rewrite (Hc p (real_particle_lookup sim i p Hi Hp)). exact Ht.
  - destruct (spin_sync_post_loop sim y0 (N_real sim))
      as ([Nspins particles'] & E & HNs & HL & HS); [lia | lia |].
    cbn [fst snd] in HNs, HL, HS. exists particles'. split; [|split; [exact HL|]].
    + unfold rebx_spin_sync_post. rewrite E. apply checked_eq. congruence.
    + intros i p Hp. rewrite (HS i p Hp).
      destruct (decide (i < N_real sim)%nat) as [Hi|Hi]; [|reflexivity].
      rewrite (Hc p (real_particle_lookup sim i p Hi Hp)).
      rewrite consistent_ranks by (assumption || lia). reflexivity.
Qed.

Lemma tidal_sim_consistent : consistent_tags tidal_sim.
Proof.
  intros p Hp. unfold real_particles in Hp. simpl in Hp.
  apply elem_of_cons in Hp as [->|Hp]; [reflexivity|].
  apply elem_of_cons in Hp as [->|Hp]; [reflexivity|].
  apply elem_of_nil in Hp. contradiction.
Qed.

Lemma sync_length_check_witness :
  let N := length (List.filter spin_tracked (real_particles tidal_sim)) in
  (exists y',
     rebx_spin_sync_pre tidal_sim long_ode [4; 5; 6] =
       Some (checked long_ode N 1 (set_y y' long_ode))
     /\ length y' = length (Ode.y long_ode)
     /\ forall i p, (i < N_real tidal_sim)%nat ->
          Sim.particles tidal_sim !! i = Some p ->
          spin_tracked p = true ->
          slots3 y' (3 * tracked_rank tidal_sim i) = Some (spin_of p))
  /\ (exists particles',
        rebx_spin_sync_post tidal_sim long_ode [4; 5; 6] =
          Some (checked long_ode N 0 (set_particles particles' tidal_sim))
        /\ length particles' = length (Sim.particles tidal_sim)
        /\ forall i p, Sim.particles tidal_sim !! i = Some p ->
             particles' !! i =
             Some (if decide (i < N_real tidal_sim)%nat
                   then if spin_tracked p
                        then with_spin (spin_at [4; 5; 6] (tracked_rank tidal_sim i)) p
                        else p
                   else p)).
Proof.
  apply (sync_length_check tidal_sim long_ode [4; 5; 6] tidal_sim_consistent);
    vm_compute; lia.
Defined.

(** The two callbacks on sample configurations.  A body with [moi] and the
    spin but no [k2] is counted at the creation of the ODE and skipped by the
    pre-step call, which ends the run although the ODE has the length it was
    created with. *)
Example sync_pre_spinning_point :
  rebx_spin_initialize_ode (Extras.mk (Some (Sim.mk 1 0 [spinning_point] [])))
    (Force.mk ∅)
  = Some (Extras.mk (Some spinning_point_sim), Force.mk {[ "ode" := 0%nat ]})
  /\ rebx_spin_sync_pre spinning_point_sim (spin_ode 1) [0; 0; 1]
     = Some (Exited 1 [reb_error ode_length_error] (spin_ode 1)).
Proof. split; reflexivity. Qed.

(** The post-step call on an ODE that is too long: the run ends with status
    0, and the spin tags of the body have been overwritten. *)
Example sync_post_long_ode :
  rebx_spin_sync_post tidal_sim long_ode [4; 5; 6; 7; 8; 9]
  = Some (Exited 0 [reb_error ode_length_error]
            (set_particles [with_spin (Vec3d.mk 4 5 6) tidal_body; primary_body]
                           tidal_sim)).
Proof. reflexivity. Qed.

(** C4 as stated fails.  First: the length of the ODE is three times the
    number of bodies with [moi] and the spin, and the pre-step call ends the
    run all the same, because it counts the bodies with [k2].  Second: on a
    mismatch the post-step call ends the run after it has overwritten
    [sx] of the body (from 0 to 4). *)
Lemma sync_length_check_counterexample :
  (Ode.length (spin_ode 1) =
     (3 * length (List.filter spin_tracked (real_particles spinning_point_sim)))%nat
   /\ rebx_spin_sync_pre spinning_point_sim (spin_ode 1) [0; 0; 1]
      = Some (Exited 1 [reb_error ode_length_error] (spin_ode 1)))
  /\ (exists sim',
        rebx_spin_sync_post tidal_sim long_ode [4; 5; 6; 7; 8; 9]
        = Some (Exited 0 [reb_error ode_length_error] sim')
        /\ (p ← Sim.particles tidal_sim !! 0%nat; rebx_get_param (ap p) "sx") = Some 0
        /\ (p ← Sim.particles sim' !! 0%nat; rebx_get_param (ap p) "sx") = Some 4).
Proof.
  split; [split; reflexivity|].
  eexists. split; [reflexivity|]. split; reflexivity.
Qed.

(** * Further properties of the code *)

(** ** The force kernel *)

(** The kernel reads the two bodies through the masses, the radius of the
    source, the separation and the relative velocity only. *)
Lemma kernel_ext (s t s' t' : reb_particle) (G k2 sigma sx sy sz : R) :
  m s' = m s -> r s' = r s -> m t' = m t ->
  vsub (pos s') (pos t') = vsub (pos s) (pos t) ->
  vsub (vel s') (vel t') = vsub (vel s) (vel t) ->
  rebx_calculate_spin_orbit_accelerations s' t' G k2 sigma sx sy sz =
  rebx_calculate_spin_orbit_accelerations s t G k2 sigma sx sy sz.
Proof.
  intros Hm Hr Hm' Hd Hv. rewrite !kernel_decompose.
  unfold quadrupole_term, dissipative_term. cbv zeta.
  rewrite Hm, Hr, Hm', Hd, Hv. reflexivity.
Qed.

(** X1: the force does not change when both bodies are moved by the same
    displacement and boosted by the same velocity. *)
Theorem kernel_galilean_invariance (dp dv : reb_vec3d) (source target : reb_particle)
    (G k2 sigma sx sy sz : R) :
  rebx_calculate_spin_orbit_accelerations (boosted dp dv source) (boosted dp dv target)
    G k2 sigma sx sy sz =
  rebx_calculate_spin_orbit_accelerations source target G k2 sigma sx sy sz.
Proof.
  apply kernel_ext; try reflexivity;
    apply vec_eq; unfold boosted; unfold_vectors; ring.
Qed.

(** X2: time reversal.  Negating the relative velocity and the spin together
    leaves the quadrupole contribution unchanged and flips the sign of the
    dissipative contribution. *)
Theorem kernel_time_reversal (source target source' target' : reb_particle)
    (G k2 sigma sx sy sz : R) :
  same_but_velocity source source' -> same_but_velocity target target' ->
  vsub (vel source') (vel target') = vopp (vsub (vel source) (vel target)) ->
  quadrupole_contribution source' target' G k2 (- sx) (- sy) (- sz) =
    quadrupole_contribution source target G k2 sx sy sz
  /\ dissipative_contribution source' target' G k2 sigma (- sx) (- sy) (- sz) =
     vopp (dissipative_contribution source target G k2 sigma sx sy sz).
Proof.
  intros (Hp & Hm & Hr) (Hp' & Hm' & Hr') Hv.
  rewrite !quadrupole_contribution_eq, !dissipative_contribution_eq.
  unfold quadrupole_term, dissipative_term. cbv zeta.
  rewrite Hp, Hp', Hm, Hm', Hr, Hv.
  generalize (vsub (pos source) (pos target)) as d.
  generalize (vsub (vel source) (vel target)) as v.
  intros [v1 v2 v3] d.
  generalize (vnorm d) as rr. destruct d as [d1 d2 d3]. intros rr.
  generalize (reduced_mass (m source) (m target)) as mu. intros mu.
  split.
  - replace (vdot (Vec3d.mk (- sx) (- sy) (- sz)) (Vec3d.mk d1 d2 d3))
      with (- vdot (Vec3d.mk sx sy sz) (Vec3d.mk d1 d2 d3))
      by (unfold_vectors; ring).
    replace (vdot (Vec3d.mk (- sx) (- sy) (- sz)) (Vec3d.mk (- sx) (- sy) (- sz)))
      with (vdot (Vec3d.mk sx sy sz) (Vec3d.mk sx sy sz))
      by (unfold_vectors; ring).
    replace ((- vdot (Vec3d.mk sx sy sz) (Vec3d.mk d1 d2 d3)) ^ 2)
      with (vdot (Vec3d.mk sx sy sz) (Vec3d.mk d1 d2 d3) ^ 2) by ring.
    generalize (vdot (Vec3d.mk sx sy sz) (Vec3d.mk d1 d2 d3)) as od.
    generalize (vdot (Vec3d.mk sx sy sz) (Vec3d.mk sx sy sz)) as oo.
    intros oo od. apply vec_eq; unfold_vectors; unfold Rdiv; ring.
  - generalize (-9 * sigma * m target ^ 2 * (k2 * r source ^ 5) ^ 2 /
                (2 * mu * rr ^ 10)) as pref.
    intros pref. apply vec_eq; unfold_vectors; ring.
Qed.

Lemma kernel_time_reversal_witness :
  quadrupole_contribution retrograde_body primary_body 1 1 (- 0) (- 0) (- 1) =
    quadrupole_contribution prograde_body primary_body 1 1 0 0 1
  /\ dissipative_contribution retrograde_body primary_body 1 1 1 (- 0) (- 0) (- 1) =
     vopp (dissipative_contribution prograde_body primary_body 1 1 1 0 0 1).
Proof.
  destruct sample_bodies_reversed as (Hs & Ht & Hv).
  apply (kernel_time_reversal prograde_body primary_body retrograde_body primary_body
           1 1 1 0 0 1); [exact Hs | exact Ht | exact Hv].
Defined.

(** Without dissipation the force is a combination of the separation and
    the spin. *)
Lemma kernel_without_dissipation (source target : reb_particle) (G k2 : R)
    (Omega : reb_vec3d) :
  exists a b,
    rebx_calculate_spin_orbit_accelerations source target G k2 0
      (Vec3d.x Omega) (Vec3d.y Omega) (Vec3d.z Omega)
    = vsub (vscale a (vsub (pos source) (pos target))) (vscale b Omega)
    /\ (vdot Omega (vsub (pos source) (pos target)) = 0 -> b = 0).
Proof.
  rewrite kernel_decompose, dissipative_term_sigma_zero, vadd_vzero_r.
  unfold quadrupole_term. cbv zeta.
  destruct Omega as [o1 o2 o3]. cbn [Vec3d.x Vec3d.y Vec3d.z].
  set (d := vsub (pos source) (pos target)).
  set (pref := m target * (k2 * r source ^ 5) / reduced_mass (m source) (m target)).
  set (O := Vec3d.mk o1 o2 o3).
  exists (pref * (5 * vdot O d ^ 2 / (2 * vnorm d ^ 7)
                  - vdot O O / (2 * vnorm d ^ 5) - 6 * G * m target / vnorm d ^ 8)),
         (pref * (vdot O d / vnorm d ^ 5)).
  split.
  - apply vec_eq; unfold vsub, vscale; cbn [Vec3d.x Vec3d.y Vec3d.z]; ring.
  - intros ->. unfold Rdiv. ring.
Qed.

Lemma vcross_self (a : reb_vec3d) : vcross a a = vzero.
Proof. apply vec_eq; unfold_vectors; ring. Qed.

Lemma vdot_vsum_zero (a : reb_vec3d) (l : list reb_vec3d) :
  Forall (fun v => vdot a v = 0) l -> vdot a (vsum l) = 0.
Proof.
  induction 1 as [|v l Hv _ IH]; simpl.
  - unfold_vectors. ring.
  - change (vdot a (vadd v (vsum l)) = 0).
    replace (vdot a (vadd v (vsum l))) with (vdot a v + vdot a (vsum l))
      by (unfold_vectors; ring).
    rewrite Hv, IH. ring.
Qed.

(** Without dissipation the torque of a pair is orthogonal to the spin. *)
Lemma pair_torque_orthogonal (G : R) (pi pj : reb_particle) (k2 moi : R)
    (Omega : reb_vec3d) :
  vdot Omega (pair_torque G pi k2 0 moi Omega pj) = 0.
Proof.
  unfold pair_torque.
  destruct (kernel_without_dissipation pi pj G k2 Omega) as (a & b & -> & _).
  generalize (vsub (pos pi) (pos pj)) as d.
  generalize (- reduced_mass (m pi) (m pj) / moi) as c.
  intros c [d1 d2 d3]. destruct Omega as [o1 o2 o3]. unfold_vectors. ring.
Qed.

(** X3: for two bodies of positive mass at distinct positions and a nonzero
    [moi], without dissipation ([sigma = 0]) and with the spin orthogonal to
    the separation, the force is along the separation, with the factor
    [- (m_t k2 R_s^5 / mu) (|Omega|^2 / (2 r^5) + 6 G m_t / r^8)], and the
    torque [(r_i - r_j) x F] is zero. *)
Theorem kernel_radial_for_orthogonal_spin (source target : reb_particle)
    (G k2 moi : R) (Omega : reb_vec3d) :
  0 < m source -> 0 < m target -> pos source <> pos target -> moi <> 0 ->
  vdot Omega (vsub (pos source) (pos target)) = 0 ->
  let d := vsub (pos source) (pos target) in
  let rr := vnorm d in
  rebx_calculate_spin_orbit_accelerations source target G k2 0
    (Vec3d.x Omega) (Vec3d.y Omega) (Vec3d.z Omega)
  = vscale (- (m target * (k2 * r source ^ 5) / reduced_mass (m source) (m target))
            * (vdot Omega Omega / (2 * rr ^ 5) + 6 * G * m target / rr ^ 8)) d
  /\ pair_torque G source k2 0 moi Omega target = vzero.
Proof.
  intros _ _ _ _ Horth d rr. change (vdot Omega d = 0) in Horth.
  assert (HF : rebx_calculate_spin_orbit_accelerations source target G k2 0
                 (Vec3d.x Omega) (Vec3d.y Omega) (Vec3d.z Omega)
               = vscale (- (m target * (k2 * r source ^ 5)
                            / reduced_mass (m source) (m target))
                         * (vdot Omega Omega / (2 * rr ^ 5)
                            + 6 * G * m target / rr ^ 8)) d).
  { rewrite kernel_decompose, dissipative_term_sigma_zero, vadd_vzero_r.
    unfold quadrupole_term. cbv zeta.
    destruct Omega as [o1 o2 o3]. cbn [Vec3d.x Vec3d.y Vec3d.z].
    fold d. fold rr. rewrite Horth.
    apply vec_eq; unfold vsub, vscale; cbn [Vec3d.x Vec3d.y Vec3d.z];
      unfold Rdiv; ring. }
  split; [exact HF|].
  unfold pair_torque. rewrite HF. fold d.
  generalize (- (m target * (k2 * r source ^ 5) / reduced_mass (m source) (m target))
              * (vdot Omega Omega / (2 * rr ^ 5) + 6 * G * m target / rr ^ 8)) as c.
  generalize (- reduced_mass (m source) (m target) / moi) as c'.
  intros c' c. destruct d as [d1 d2 d3]. apply vec_eq; unfold_vectors; ring.
Qed.

Lemma kernel_radial_for_orthogonal_spin_witness :
  let d := vsub (pos structured_body) (pos primary_body) in
  let rr := vnorm d in
  rebx_calculate_spin_orbit_accelerations structured_body primary_body 1 1 0 0 0 1
  = vscale (- (m primary_body * (1 * r structured_body ^ 5)
               / reduced_mass (m structured_body) (m primary_body))
            * (vdot (Vec3d.mk 0 0 1) (Vec3d.mk 0 0 1) / (2 * rr ^ 5)
               + 6 * 1 * m primary_body / rr ^ 8)) d
  /\ pair_torque 1 structured_body 1 0 1 (Vec3d.mk 0 0 1) primary_body = vzero.
Proof.
  apply (kernel_radial_for_orthogonal_spin structured_body primary_body 1 1 1
           (Vec3d.mk 0 0 1)).
  - simpl. lra.
  - simpl. lra.
  - intros H. apply (f_equal Vec3d.x) in H. simpl in H. lra.
  - lra.
  - unfold_vectors. ring.
Defined.

(** ** The force accumulator *)

Lemma total_force_alter (f : reb_particle -> reb_particle) (i : nat)
    (l : list reb_particle) (p : reb_particle) :
  l !! i = Some p ->
  total_force (alter f i l) =
  vadd (total_force l)
       (vsub (vscale (m (f p)) (acc (f p))) (vscale (m p) (acc p))).
Proof.
  revert i. induction l as [|q l IH]; intros i Hi; [discriminate|].
  destruct i as [|i]; simpl in Hi.
  - injection Hi as ->. unfold total_force. simpl.
    apply vec_eq; cbn [Vec3d.x Vec3d.y Vec3d.z vadd vsub]; ring.
  - change (alter f (S i) (q :: l)) with (q :: alter f i l).
    unfold total_force in *. simpl. rewrite (IH i Hi).
    apply vec_eq; cbn [Vec3d.x Vec3d.y Vec3d.z vadd vsub]; ring.
Qed.

(** One call of [rebx_spin_orbit_accelerations] on two different bodies adds
    nothing to the sum of [m a]. *)
Lemma spin_orbit_accelerations_total_force (i j : nat) (G k2 sigma sx sy sz : R)
    (l : list reb_particle) :
  i <> j ->
  total_force (rebx_spin_orbit_accelerations i j G k2 sigma sx sy sz l) = total_force l.
Proof.
  intros Hij. unfold rebx_spin_orbit_accelerations.
  destruct (l !! i) as [s|] eqn:Hi; [|reflexivity].
  destruct (l !! j) as [t|] eqn:Hj; [|reflexivity].
  cbv zeta.
  generalize (rebx_calculate_spin_orbit_accelerations s t G k2 sigma sx sy sz) as F.
  intros [Fx Fy Fz]. cbn [Vec3d.x Vec3d.y Vec3d.z].
  rewrite !list_alter_alter_eq.
  rewrite (total_force_alter _ i _ s) by (rewrite list_lookup_alter_ne by congruence; exact Hi).
  rewrite (total_force_alter _ j _ t) by exact Hj.
  generalize (total_force l) as T. intros [T1 T2 T3].
  apply vec_eq; unfold_vectors; cbn; unfold Rdiv; ring.
Qed.

Lemma tides_spin_pair_total_force (G : R) (i : nat) (k2 sigma sx sy sz : R)
    (l : list reb_particle) (j : nat) :
  total_force (tides_spin_pair G i k2 sigma sx sy sz l j) = total_force l.
Proof.
  unfold tides_spin_pair.
  destruct (decide (i = j)) as [|Hij]; [reflexivity|].
  destruct (l !! i); [|reflexivity]. destruct (l !! j); [|reflexivity].
  destruct (Reqb _ _ || Reqb _ _); [reflexivity|].
  apply spin_orbit_accelerations_total_force, Hij.
Qed.

(** A quantity that every round of a loop keeps is kept by the loop. *)
Lemma foldl_invariant {A B C : Type} (q : A -> C) (f : A -> B -> A) (bs : list B)
    (a : A) :
  (forall a b, q (f a b) = q a) -> q (foldl f a bs) = q a.
Proof.
  intros Hf. revert a. induction bs as [|b bs IH]; intros a; simpl; [reflexivity|].
  rewrite IH. apply Hf.
Qed.

(** X4: Newton's third law for the whole accumulator: [rebx_tides_spin]
    leaves the sum of [m a] over the particles unchanged, whatever the
    bodies and their parameters are. *)
Theorem tides_spin_total_force (sim : reb_simulation) (particles : list reb_particle) :
  total_force (rebx_tides_spin sim particles).2 = total_force particles.
Proof.
  unfold rebx_tides_spin. cbv zeta. simpl snd.
  apply (foldl_invariant total_force). intros l i.
  unfold tides_spin_source.
  destruct (l !! i) as [source|]; [|reflexivity]. cbv zeta.
  destruct (rebx_get_param (ap source) "sx"); [|reflexivity].
  destruct (rebx_get_param (ap source) "sy"); [|reflexivity].
  destruct (rebx_get_param (ap source) "sz"); [|reflexivity].
  destruct (rebx_get_param (ap source) "k2"); [|reflexivity].
  apply (foldl_invariant total_force). intros l' j.
  apply tides_spin_pair_total_force.
Qed.

(** A property that every round of a loop keeps is kept by the loop. *)
Lemma foldl_preserves {A B : Type} (P : A -> Prop) (f : A -> B -> A) (bs : list B)
    (a : A) :
  (forall a b, b ∈ bs -> P a -> P (f a b)) -> P a -> P (foldl f a bs).
Proof.
  revert a. induction bs as [|b bs IH]; intros a Hf Ha; simpl; [exact Ha|].
  apply IH.
  - intros a' b' Hb'. apply Hf. right. exact Hb'.
  - apply Hf; [left | exact Ha].
Qed.

Lemma spin_orbit_accelerations_other (i j k : nat) (G k2 sigma sx sy sz : R)
    (l : list reb_particle) :
  k <> i -> k <> j ->
  rebx_spin_orbit_accelerations i j G k2 sigma sx sy sz l !! k = l !! k.
Proof.
  intros Hi Hj. unfold rebx_spin_orbit_accelerations.
  destruct (l !! i); [|reflexivity]. destruct (l !! j); [|reflexivity].
  cbv zeta. rewrite !list_lookup_alter_ne by congruence. reflexivity.
Qed.

Lemma Reqb_refl (a : R) : Reqb a a = true.
Proof. unfold Reqb. destruct (Req_dec_T a a); congruence. Qed.

Lemma tides_spin_pair_massless (G : R) (i : nat) (k2 sigma sx sy sz : R)
    (l : list reb_particle) (j k : nat) (p : reb_particle) :
  m p = 0 -> l !! k = Some p ->
  tides_spin_pair G i k2 sigma sx sy sz l j !! k = Some p.
Proof.
  intros Hm Hk. unfold tides_spin_pair.
  destruct (decide (i = j)) as [|Hij]; [exact Hk|].
  destruct (l !! i) as [s|] eqn:Hi; [|exact Hk].
  destruct (l !! j) as [t|] eqn:Hj; [|exact Hk].
  destruct (Reqb (m s) 0 || Reqb (m t) 0) eqn:Hz; [exact Hk|].
  apply orb_false_elim in Hz as [Hs Ht].
  destruct (decide (k = i)) as [->|Hki].
  { rewrite Hi in Hk. injection Hk as ->. rewrite Hm, Reqb_refl in Hs. discriminate. }
  destruct (decide (k = j)) as [->|Hkj].
  { rewrite Hj in Hk. injection Hk as ->. rewrite Hm, Reqb_refl in Ht. discriminate. }
  rewrite spin_orbit_accelerations_other by assumption. exact Hk.
Qed.

(** X5: a particle of mass zero is skipped as source and as target:
    [rebx_tides_spin] leaves it as it is, accelerations included. *)
Theorem tides_spin_massless (sim : reb_simulation) (particles : list reb_particle)
    (k : nat) (p : reb_particle) :
  particles !! k = Some p -> m p = 0 ->
  (rebx_tides_spin sim particles).2 !! k = Some p.
Proof.
  intros Hk Hm. unfold rebx_tides_spin. cbv zeta. simpl snd.
  apply (foldl_preserves (fun l => l !! k = Some p)); [|exact Hk].
  intros l i _ Hl. unfold tides_spin_source.
  destruct (l !! i) as [source|]; [|exact Hl]. cbv zeta.
  destruct (rebx_get_param (ap source) "sx"); [|exact Hl].
  destruct (rebx_get_param (ap source) "sy"); [|exact Hl].
  destruct (rebx_get_param (ap source) "sz"); [|exact Hl].
  destruct (rebx_get_param (ap source) "k2"); [|exact Hl].
  apply (foldl_preserves (fun l => l !! k = Some p)); [|exact Hl].
  intros l' j _ Hl'. apply tides_spin_pair_massless; assumption.
Qed.

Lemma tides_spin_massless_witness :
  (rebx_tides_spin tidal_sim [tidal_body; body 2 0 0 0 0 0 0 1]).2 !! 1%nat
  = Some (body 2 0 0 0 0 0 0 1).
Proof.
  apply (tides_spin_massless tidal_sim [tidal_body; body 2 0 0 0 0 0 0 1] 1);
    reflexivity.
Defined.

Lemma structured_params (p : reb_particle) :
  structured p = false ->
  rebx_get_param (ap p) "sx" = None \/ rebx_get_param (ap p) "sy" = None
  \/ rebx_get_param (ap p) "sz" = None \/ rebx_get_param (ap p) "k2" = None.
Proof.
  unfold structured. rewrite !andb_false_iff, !has_param_false. tauto.
Qed.

(** X6: bodies without [k2] or without one of [sx], [sy], [sz] are point
    particles: when no particle has all four, [rebx_tides_spin] returns the
    array as it is. *)
Theorem tides_spin_point_particles (sim : reb_simulation)
    (particles : list reb_particle) :
  (forall p, p ∈ particles -> structured p = false) ->
  (rebx_tides_spin sim particles).2 = particles.
Proof.
  intros Hpoint. unfold rebx_tides_spin. cbv zeta. simpl snd.
  apply (foldl_preserves (fun l => l = particles)); [|reflexivity].
  intros l i _ ->. unfold tides_spin_source.
  destruct (particles !! i) as [source|] eqn:Hi; [|reflexivity]. cbv zeta.
  destruct (structured_params source) as [H | [H | [H | H]]].
  - apply Hpoint. apply list_elem_of_lookup. exists i. exact Hi.
  - rewrite H. reflexivity.
  - rewrite H. destruct (rebx_get_param (ap source) "sx"); reflexivity.
  - rewrite H. destruct (rebx_get_param (ap source) "sx"),
      (rebx_get_param (ap source) "sy"); reflexivity.
  - rewrite H. destruct (rebx_get_param (ap source) "sx"),
      (rebx_get_param (ap source) "sy"), (rebx_get_param (ap source) "sz");
      reflexivity.
Qed.

Lemma tides_spin_point_particles_witness :
  (rebx_tides_spin tidal_sim [prograde_body; primary_body]).2
  = [prograde_body; primary_body].
Proof.
  apply (tides_spin_point_particles tidal_sim [prograde_body; primary_body]).
  intros p Hp.
  apply elem_of_cons in Hp as [->|Hp]; [reflexivity|].
  apply elem_of_cons in Hp as [->|Hp]; [reflexivity|].
  apply elem_of_nil in Hp. contradiction.
Defined.

(** ** The spin potential *)

(** X7: the potential counts a source only if it has both [k2] and [sigma]:
    when no real body has both, [rebx_spin_potential] returns 0 without any
    message, although [rebx_tides_spin] may apply forces. *)
Theorem spin_potential_needs_sigma (rebx : rebx_extras) (sim : reb_simulation) :
  Extras.sim rebx = Some sim ->
  (forall p, p ∈ real_particles sim ->
     has_param "k2" p && has_param "sigma" p = false) ->
  rebx_spin_potential rebx = (0, []).
Proof.
  intros Hsim Hno. unfold rebx_spin_potential. rewrite Hsim. cbv zeta. f_equal.
  apply (foldl_preserves (fun H => H = 0)); [|reflexivity].
  intros H i Hi ->. apply elem_of_seq in Hi.
  unfold spin_potential_source.
  destruct (Sim.particles sim !! i) as [source|] eqn:Hp; [|reflexivity].
  cbv zeta.
  assert (Hs : has_param "k2" source && has_param "sigma" source = false)
    by (apply Hno, (real_particle_lookup sim i); [lia | exact Hp]).
  apply andb_false_iff in Hs as [Hs|Hs]; apply has_param_false in Hs; rewrite Hs.
  - reflexivity.
  - destruct (rebx_get_param (ap source) "k2"); reflexivity.
Qed.

Lemma spin_potential_needs_sigma_witness :
  rebx_spin_potential (Extras.mk (Some (Sim.mk 1 0 tidal_pair []))) = (0, []).
Proof.
  apply (spin_potential_needs_sigma _ (Sim.mk 1 0 tidal_pair [])); [reflexivity|].
  intros p Hp. unfold real_particles in Hp. simpl in Hp.
  apply elem_of_cons in Hp as [->|Hp]; [reflexivity|].
  apply elem_of_cons in Hp as [->|Hp]; [reflexivity|].
  apply elem_of_nil in Hp. contradiction.
Defined.

Lemma Rinv_nonneg (a : R) : 0 <= a -> 0 <= / a.
Proof.
  intros [Ha| <-].
  - left. apply Rinv_0_lt_compat, Ha.
  - rewrite Rinv_0. apply Rle_refl.
Qed.

Lemma Rsum_nonpos (l : list R) : Forall (fun v => v <= 0) l -> Rsum l <= 0.
Proof.
  induction 1 as [|v l Hv _ IH]; unfold Rsum in *; simpl; lra.
Qed.

Lemma pair_potential_nonpos (source target : reb_particle) (G k2 : R) :
  0 <= G -> 0 <= k2 -> 0 <= m source -> 0 <= m target -> 0 <= r target ->
  pair_potential source target G k2 <= 0.
Proof.
  intros HG Hk Hms Hmt Hr. unfold pair_potential. cbv zeta.
  set (rr := vnorm (vsub (pos target) (pos source))).
  assert (Hrr : 0 <= rr) by apply sqrt_pos.
  assert (Hi : 0 <= / rr ^ 6) by (apply Rinv_nonneg, pow_le, Hrr).
  assert (Hmi : 0 <= / m target) by (apply Rinv_nonneg, Hmt).
  assert (Hr5 : 0 <= r target ^ 5) by (apply pow_le, Hr).
  unfold Rdiv.
  replace (- (1 * / 2) * G * m source * m target * (m source * / m target) * k2
           * r target ^ 5 * / rr ^ 6)
    with (- ((1 * / 2) * (G * (m source * (m target * (m source * (/ m target
             * (k2 * (r target ^ 5 * / rr ^ 6)))))))))
    by ring.
  apply Ropp_le_cancel. rewrite Ropp_involutive, Ropp_0.
  repeat apply Rmult_le_pos; try assumption; lra.
Qed.

(** X8: the potential is never positive when [G], the masses, the radii and
    the Love numbers of the real bodies are not negative. *)
Theorem spin_potential_nonpositive (rebx : rebx_extras) (sim : reb_simulation) :
  Extras.sim rebx = Some sim ->
  0 <= Sim.G sim ->
  (forall p, p ∈ real_particles sim ->
     0 <= m p /\ 0 <= r p /\ 0 <= default 0 (rebx_get_param (ap p) "k2")) ->
  (rebx_spin_potential rebx).1 <= 0.
Proof.
  intros Hsim HG Hphys. unfold rebx_spin_potential. rewrite Hsim. cbv zeta.
  simpl fst. rewrite potential_outer_loop, Rplus_0_l.
  apply Rsum_nonpos. apply Forall_map, Forall_forall.
  intros [i j] Hin. apply list_elem_of_In, List.filter_In in Hin as [Hin _].
  apply in_prod_iff in Hin as [Hi Hj].
  apply in_seq in Hi. apply in_seq in Hj.
  unfold potential_pair_term. simpl fst. simpl snd.
  destruct (Sim.particles sim !! i) as [source|] eqn:Hs; [|apply Rle_refl].
  destruct (Sim.particles sim !! j) as [target|] eqn:Ht; [|apply Rle_refl].
  destruct (Hphys source) as (Hms & _ & Hk);
    [apply (real_particle_lookup sim i); [lia | exact Hs]|].
  destruct (Hphys target) as (Hmt & Hrt & _);
    [apply (real_particle_lookup sim j); [lia | exact Ht]|].
  apply pair_potential_nonpos; assumption.
Qed.

Lemma spin_potential_nonpositive_witness : (rebx_spin_potential tidal_rebx).1 <= 0.
Proof.
  apply (spin_potential_nonpositive tidal_rebx tidal_sim); [reflexivity | simpl; lra |].
  intros p Hp. unfold real_particles in Hp. simpl in Hp.
  apply elem_of_cons in Hp as [->|Hp].
  { change (0 <= 1 /\ 0 <= 1 /\ 0 <= 1). lra. }
  apply elem_of_cons in Hp as [->|Hp].
  { change (0 <= 1 /\ 0 <= 1 /\ 0 <= 0). lra. }
  apply elem_of_nil in Hp. contradiction.
Defined.

(** ** The sigma helpers *)

(** X9: the two helpers agree: for a body with [k2] and a nonzero radius,
    the quality factor [Q] gives the same [sigma] as the lag time
    [tau = 1 / (2 Q n)], [n] the mean motion. *)
Theorem sigma_from_Q_is_from_tau
    (reb_tools_particle_to_orbit_n : R -> reb_particle -> reb_particle -> R)
    (rebx : rebx_extras) (sim : reb_simulation) (body primary : reb_particle)
    (k2 Q : R) :
  Extras.sim rebx = Some sim ->
  rebx_get_param (ap body) "k2" = Some k2 -> k2 <> 0 -> r body <> 0 ->
  Q <> 0 -> reb_tools_particle_to_orbit_n (Sim.G sim) body primary <> 0 ->
  rebx_tides_calc_sigma_from_Q reb_tools_particle_to_orbit_n rebx body primary Q =
  rebx_tides_calc_sigma_from_tau rebx body
    (1 / (2 * Q * reb_tools_particle_to_orbit_n (Sim.G sim) body primary)).
Proof.
  intros Hsim Hk Hk2 Hr HQ Hn.
  unfold rebx_tides_calc_sigma_from_Q, rebx_tides_calc_sigma_from_tau.
  rewrite Hsim. simpl. rewrite Hk, (Rneqb_true _ _ Hr). do 2 f_equal.
  field. repeat split; assumption.
Qed.

Lemma sigma_from_Q_is_from_tau_witness :
  rebx_tides_calc_sigma_from_Q (fun _ _ _ => 5) tidal_rebx tidal_body primary_body 7 =
  rebx_tides_calc_sigma_from_tau tidal_rebx tidal_body (1 / (2 * 7 * 5)).
Proof.
  apply (sigma_from_Q_is_from_tau (fun _ _ _ => 5) tidal_rebx tidal_sim tidal_body
           primary_body 1 7); try reflexivity; simpl; lra.
Defined.

(** ** Creation of the spin ODE *)

(** The result of [rebx_spin_initialize_ode] in one equation. *)
Lemma initialize_ode_result (rebx : rebx_extras) (effect : rebx_force)
    (sim : reb_simulation) :
  Extras.sim rebx = Some sim ->
  let N := length (List.filter spin_tracked (real_particles sim)) in
  rebx_spin_initialize_ode rebx effect =
  Some (if decide (0 < N)%nat
        then (Extras.mk (Some (set_odes (Sim.odes sim ++ [spin_ode N]) sim)),
              Force.mk (<["ode" := length (Sim.odes sim)]> (Force.ap effect)))
        else (rebx, effect)).
Proof.
  intros Hsim N. unfold rebx_spin_initialize_ode. rewrite Hsim. simpl.
  rewrite spin_initialize_count_loop, drop_0. simpl.
  fold (real_particles sim). fold N.
  destruct (decide (0 < N)%nat) as [HN|HN]; [|reflexivity].
  unfold reb_create_ode, set_odes, rebx_set_param_pointer. simpl.
  rewrite !alter_last. unfold spin_ode, set_post_timestep, set_pre_timestep,
    set_derivatives, set_ref. simpl.
  replace (N * 3)%nat with (N + (N + (N + 0)))%nat by lia. reflexivity.
Qed.

(** X10: once [rebx_spin_initialize_ode] has registered an ODE, the
    accumulator applies the same accelerations as before and no longer warns
    that the spin axes are not evolved. *)
Theorem tides_spin_after_initialize (rebx : rebx_extras) (effect : rebx_force)
    (sim : reb_simulation) :
  Extras.sim rebx = Some sim ->
  (0 < length (List.filter spin_tracked (real_particles sim)))%nat ->
  exists sim' effect',
    rebx_spin_initialize_ode rebx effect = Some (Extras.mk (Some sim'), effect')
    /\ forall particles,
         rebx_tides_spin sim' particles = ([], (rebx_tides_spin sim particles).2).
Proof.
  intros Hsim HN. eexists _, _. split.
  - rewrite (initialize_ode_result rebx effect sim Hsim). cbv zeta.
    rewrite decide_True by exact HN. reflexivity.
  - intros particles. unfold rebx_tides_spin. cbv zeta. simpl.
    destruct (Sim.odes sim); reflexivity.
Qed.

Lemma tides_spin_after_initialize_witness :
  exists sim' effect',
    rebx_spin_initialize_ode tidal_rebx (Force.mk ∅) =
      Some (Extras.mk (Some sim'), effect')
    /\ forall particles,
         rebx_tides_spin sim' particles = ([], (rebx_tides_spin tidal_sim particles).2).
Proof.
  apply (tides_spin_after_initialize tidal_rebx (Force.mk ∅) tidal_sim);
    [reflexivity | vm_compute; lia].
Defined.

(** X11: nothing guards against a second call: it registers a second ODE of
    the same length after the first and moves the parameter [ode] of the
    effect to it. *)
Theorem initialize_ode_twice (rebx : rebx_extras) (effect : rebx_force)
    (sim : reb_simulation) :
  Extras.sim rebx = Some sim ->
  let N := length (List.filter spin_tracked (real_particles sim)) in
  (0 < N)%nat ->
  ('(rebx1, effect1) ← rebx_spin_initialize_ode rebx effect;
   rebx_spin_initialize_ode rebx1 effect1) =
  Some (Extras.mk (Some (set_odes (Sim.odes sim ++ [spin_ode N; spin_ode N]) sim)),
        Force.mk (<["ode" := S (length (Sim.odes sim))]> (Force.ap effect))).
Proof.
  intros Hsim N HN.
  rewrite (initialize_ode_result rebx effect sim Hsim). cbv zeta. fold N.
  rewrite decide_True by exact HN. simpl.
  rewrite (initialize_ode_result _ _ (set_odes (Sim.odes sim ++ [spin_ode N]) sim))
    by reflexivity.
  cbv zeta.
  change (real_particles (set_odes (Sim.odes sim ++ [spin_ode N]) sim))
    with (real_particles sim).
  fold N. rewrite decide_True by exact HN.
  unfold set_odes. simpl. rewrite <- app_assoc. simpl.
  rewrite length_app. simpl. rewrite insert_insert_eq.
  replace (length (Sim.odes sim) + 1)%nat with (S (length (Sim.odes sim))) by lia.
  reflexivity.
Qed.

Lemma initialize_ode_twice_witness :
  let N := length (List.filter spin_tracked (real_particles tidal_sim)) in
  ('(rebx1, effect1) ← rebx_spin_initialize_ode tidal_rebx (Force.mk ∅);
   rebx_spin_initialize_ode rebx1 effect1) =
  Some (Extras.mk (Some (set_odes (Sim.odes tidal_sim ++ [spin_ode N; spin_ode N])
                                  tidal_sim)),
        Force.mk (<["ode" := S (length (Sim.odes tidal_sim))]> (Force.ap (Force.mk ∅)))).
Proof.
  apply (initialize_ode_twice tidal_rebx (Force.mk ∅) tidal_sim);
    [reflexivity | vm_compute; lia].
Defined.

(** ** The spin state synchronizer *)

(** X12: the pre-step call counts the real bodies with [k2].  When each of
    them has its three spin components and the working vector has three
    slots for each, the call copies the spins to the slots of their ranks and
    then returns if the length of the ODE is three times their number, and
    reports an error and exits with status 1 if not. *)
Theorem sync_pre_counts_k2 (sim : reb_simulation) (ode : reb_ode) (y0 : list R) :
  spins_present sim ->
  (3 * synced_count sim <= length (Ode.y ode))%nat ->
  exists y',
    rebx_spin_sync_pre sim ode y0 =
      Some (checked ode (synced_count sim) 1 (set_y y' ode))
    /\ length y' = length (Ode.y ode)
    /\ forall i p, (i < N_real sim)%nat -> Sim.particles sim !! i = Some p ->
         has_param "k2" p = true ->
         slots3 y' (3 * sync_rank sim i) = Some (spin_of p).
Proof.
  intros Hpres Hroom.
  destruct (spin_sync_pre_loop sim (Ode.y ode) (N_real sim))
    as ([Nspins y'] & E & HNs & HL & HS); [lia | exact Hroom | |].
  { intros i p Hi Hp. apply Hpres, (real_particle_lookup sim i); assumption. }
  cbn [fst snd] in HNs, HL, HS. exists y'. split; [|split; assumption].
  unfold rebx_spin_sync_pre. rewrite E. apply checked_eq. exact HNs.
Qed.

Lemma tidal_sim_spins_present : spins_present tidal_sim.
Proof.
  intros p Hp Hk. unfold real_particles in Hp. simpl in Hp.
  apply elem_of_cons in Hp as [->|Hp]; [repeat split|].
  apply elem_of_cons in Hp as [->|Hp]; [discriminate Hk|].
  apply elem_of_nil in Hp. contradiction.
Qed.

Lemma sync_pre_counts_k2_witness :
  exists y',
    rebx_spin_sync_pre tidal_sim long_ode [] =
      Some (checked long_ode (synced_count tidal_sim) 1 (set_y y' long_ode))
    /\ length y' = length (Ode.y long_ode)
    /\ forall i p, (i < N_real tidal_sim)%nat -> Sim.particles tidal_sim !! i = Some p ->
         has_param "k2" p = true ->
         slots3 y' (3 * sync_rank tidal_sim i) = Some (spin_of p).
Proof.
  apply (sync_pre_counts_k2 tidal_sim long_ode [] tidal_sim_spins_present).
  vm_compute. lia.
Defined.

(** X13: the post-step call counts the real bodies with [k2] as well.  When
    the vector [y0] has three slots for each, the call overwrites (or
    creates) [sx], [sy], [sz] of each with the slots of its rank, leaves the
    other particles as they are, and then returns if the length of the ODE is
    three times their number, and reports an error and exits with status 0 if
    not. *)
Theorem sync_post_counts_k2 (sim : reb_simulation) (ode : reb_ode) (y0 : list R) :
  (3 * synced_count sim <= length y0)%nat ->
  exists particles',
    rebx_spin_sync_post sim ode y0 =
      Some (checked ode (synced_count sim) 0 (set_particles particles' sim))
    /\ length particles' = length (Sim.particles sim)
    /\ forall i p, Sim.particles sim !! i = Some p ->
         particles' !! i =
         Some (if decide (i < N_real sim)%nat
               then if has_param "k2" p
                    then with_spin (spin_at y0 (sync_rank sim i)) p
                    else p
               else p).
Proof.
  intros Hroom.
  destruct (spin_sync_post_loop sim y0 (N_real sim))
    as ([Nspins particles'] & E & HNs & HL & HS); [lia | exact Hroom |].
  cbn [fst snd] in HNs, HL, HS. exists particles'. split; [|split; assumption].
  unfold rebx_spin_sync_post. rewrite E. apply checked_eq. exact HNs.
Qed.

Lemma sync_post_counts_k2_witness :
  exists particles',
    rebx_spin_sync_post tidal_sim long_ode [4; 5; 6] =
      Some (checked long_ode (synced_count tidal_sim) 0
              (set_particles particles' tidal_sim))
    /\ length particles' = length (Sim.particles tidal_sim)
    /\ forall i p, Sim.particles tidal_sim !! i = Some p ->
         particles' !! i =
         Some (if decide (i < N_real tidal_sim)%nat
               then if has_param "k2" p
                    then with_spin (spin_at [4; 5; 6] (sync_rank tidal_sim i)) p
                    else p
               else p).
Proof.
  apply (sync_post_counts_k2 tidal_sim long_ode [4; 5; 6]). vm_compute. lia.
Defined.

Lemma with_spin_same_but_spin (v : reb_vec3d) (p : reb_particle) :
  same_but_spin p (with_spin v p).
Proof.
  unfold same_but_spin, with_spin, set_param, rebx_set_param_double,
    rebx_get_param.
  repeat split. intros name Hx Hy Hz. simpl.
  rewrite !lookup_insert_ne by congruence. reflexivity.
Qed.

Lemma same_but_spin_refl (p : reb_particle) : same_but_spin p p.
Proof. unfold same_but_spin. repeat split. Qed.

(** X14: the post-step call changes nothing but spin tags: in the state in
    which it ends, every particle has its position, velocity, acceleration,
    mass, radius and every parameter other than [sx], [sy], [sz] as before,
    and the particles without [k2] and the variational particles are
    untouched. *)
Theorem sync_post_frame (sim : reb_simulation) (ode : reb_ode) (y0 : list R) :
  (3 * synced_count sim <= length y0)%nat ->
  exists out,
    rebx_spin_sync_post sim ode y0 = Some out
    /\ Sim.G (final_state out) = Sim.G sim
    /\ Sim.N_var (final_state out) = Sim.N_var sim
    /\ Sim.odes (final_state out) = Sim.odes sim
    /\ Forall2 same_but_spin (Sim.particles sim) (Sim.particles (final_state out))
    /\ forall i p, Sim.particles sim !! i = Some p ->
         (N_real sim <= i)%nat \/ has_param "k2" p = false ->
         Sim.particles (final_state out) !! i = Some p.
Proof.
  intros Hroom.
  destruct (spin_sync_post_loop sim y0 (N_real sim))
    as ([Nspins particles'] & E & HNs & HL & HS); [lia | exact Hroom |].
  cbn [fst snd] in HNs, HL, HS.
  assert (Hstate : forall o : outcome reb_simulation,
            final_state o = set_particles particles' sim ->
            Sim.G (final_state o) = Sim.G sim
            /\ Sim.N_var (final_state o) = Sim.N_var sim
            /\ Sim.odes (final_state o) = Sim.odes sim
            /\ Forall2 same_but_spin (Sim.particles sim) (Sim.particles (final_state o))
            /\ forall i p, Sim.particles sim !! i = Some p ->
                 (N_real sim <= i)%nat \/ has_param "k2" p = false ->
                 Sim.particles (final_state o) !! i = Some p).
  { intros o ->. simpl. repeat split.
    - apply Forall2_same_length_lookup_2; [symmetry; exact HL|].
      intros i p p' Hp Hp'. rewrite (HS i p Hp) in Hp'. injection Hp' as <-.
      destruct (decide (i < N_real sim)%nat); [|apply same_but_spin_refl].
      destruct (has_param "k2" p);
        [apply with_spin_same_but_spin | apply same_but_spin_refl].
    - intros i p Hp Hcase. rewrite (HS i p Hp).
      destruct (decide (i < N_real sim)%nat) as [Hi|Hi]; [|reflexivity].
      destruct Hcase as [Hge|Hk]; [lia|]. rewrite Hk. reflexivity. }
  unfold rebx_spin_sync_post. rewrite E. simpl.
  destruct (decide (Ode.length ode <> (Nspins * 3)%nat)); eexists;
    (split; [reflexivity | apply Hstate; reflexivity]).
Qed.

Lemma sync_post_frame_witness :
  exists out,
    rebx_spin_sync_post tidal_sim long_ode [4; 5; 6] = Some out
    /\ Sim.G (final_state out) = Sim.G tidal_sim
    /\ Sim.N_var (final_state out) = Sim.N_var tidal_sim
    /\ Sim.odes (final_state out) = Sim.odes tidal_sim
    /\ Forall2 same_but_spin (Sim.particles tidal_sim)
                             (Sim.particles (final_state out))
    /\ forall i p, Sim.particles tidal_sim !! i = Some p ->
         (N_real tidal_sim <= i)%nat \/ has_param "k2" p = false ->
         Sim.particles (final_state out) !! i = Some p.
Proof.
  apply (sync_post_frame tidal_sim long_ode [4; 5; 6]). vm_compute. lia.
Defined.

(** X15: the pre-step call dereferences the three spin tags of every real
    body with [k2] without a test: when one of them is missing the call is
    undefined, whatever the ODE and the vectors are. *)
Theorem sync_pre_missing_spin (sim : reb_simulation) (ode : reb_ode) (y0 : list R)
    (i : nat) (p : reb_particle) :
  (i < N_real sim)%nat -> Sim.particles sim !! i = Some p ->
  has_param "k2" p = true ->
  has_param "sx" p = false \/ has_param "sy" p = false \/ has_param "sz" p = false ->
  rebx_spin_sync_pre sim ode y0 = None.
Proof.
  intros Hi Hp Hk Hmiss. unfold rebx_spin_sync_pre.
  replace (N_real sim) with (i + S (N_real sim - S i))%nat by lia.
  rewrite seq_app, for_each_app.
  destruct (for_each (spin_sync_pre_body sim) (0%nat, Ode.y ode) (seq 0 i))
    as [[Nspins ode_y]|]; [|reflexivity].
  simpl. unfold spin_sync_pre_body at 1. rewrite Hp. simpl.
  apply has_param_true in Hk as [k2 Hk]. rewrite Hk.
  destruct Hmiss as [H | [H | H]]; apply has_param_false in H; rewrite H.
  - reflexivity.
  - destruct (rebx_get_param (ap p) "sx"); [|reflexivity]. simpl.
    destruct (array_set ode_y _ _); reflexivity.
  - destruct (rebx_get_param (ap p) "sx"); [|reflexivity]. simpl.
    destruct (array_set ode_y _ _); [|reflexivity]. simpl.
    destruct (rebx_get_param (ap p) "sy"); [|reflexivity]. simpl.
    destruct (array_set _ _ _); reflexivity.
Qed.

Lemma sync_pre_missing_spin_witness :
  rebx_spin_sync_pre (Sim.mk 1 0 [set_ap {[ "k2" := 1 ]} primary_body] [])
    (spin_ode 1) [] = None.
Proof.
  apply (sync_pre_missing_spin (Sim.mk 1 0 [set_ap {[ "k2" := 1 ]} primary_body] [])
           (spin_ode 1) [] 0 (set_ap {[ "k2" := 1 ]} primary_body));
    [vm_compute; lia | reflexivity | reflexivity | left; reflexivity].
Defined.

(** *** Round trips *)

Lemma slots3_spin_at (a : list R) (k : nat) (v : reb_vec3d) :
  slots3 a (3 * k) = Some v -> spin_at a k = v.
Proof.
  intros H. apply slots3_Some in H as (H0 & H1 & H2).
  unfold spin_at. rewrite H0, H1, H2. destruct v. reflexivity.
Qed.

Lemma with_spin_spin_of (p : reb_particle) :
  has_param "sx" p = true -> has_param "sy" p = true -> has_param "sz" p = true ->
  with_spin (spin_of p) p = p.
Proof.
  intros Hx Hy Hz.
  apply has_param_true in Hx as [sx Hx].
  apply has_param_true in Hy as [sy Hy].
  apply has_param_true in Hz as [sz Hz].
  unfold with_spin, spin_of, set_param, rebx_set_param_double, rebx_get_param in *.
  rewrite Hx, Hy, Hz. destruct p as [? ? ? ? ? ? ? ? ? ? ? aps]. simpl in *.
  unfold set_ap. simpl. f_equal.
  rewrite (insert_id aps "sx" sx Hx), (insert_id aps "sy" sy Hy).
  apply insert_id, Hz.
Qed.

Lemma spin_of_with_spin (v : reb_vec3d) (p : reb_particle) :
  spin_of (with_spin v p) = v.
Proof.
  unfold spin_of, with_spin, set_param, rebx_set_param_double, rebx_get_param.
  cbn [ap set_ap].
  repeat (rewrite lookup_insert_eq || rewrite lookup_insert_ne by discriminate).
  destruct v. reflexivity.
Qed.

Lemma set_particles_same (sim : reb_simulation) :
  set_particles (Sim.particles sim) sim = sim.
Proof. destruct sim. reflexivity. Qed.

(** X16: round trip.  After a pre-step call, a post-step call on the vector
    the pre-step call has written gives back the simulation as it was: the
    spin tags of every body are reproduced exactly. *)
Theorem sync_pre_post_roundtrip (sim : reb_simulation) (ode : reb_ode) (y0 : list R) :
  spins_present sim ->
  (3 * synced_count sim <= length (Ode.y ode))%nat ->
  exists y',
    rebx_spin_sync_pre sim ode y0 =
      Some (checked ode (synced_count sim) 1 (set_y y' ode))
    /\ rebx_spin_sync_post sim (set_y y' ode) y' =
      Some (checked ode (synced_count sim) 0 sim).
Proof.
  intros Hpres Hroom.
  destruct (spin_sync_pre_loop sim (Ode.y ode) (N_real sim))
    as ([Nspins y'] & E & HNs & HL & HS); [lia | exact Hroom | |].
  { intros i p Hi Hp. apply Hpres, (real_particle_lookup sim i); assumption. }
  cbn [fst snd] in HNs, HL, HS. exists y'. split.
  { unfold rebx_spin_sync_pre. rewrite E. apply checked_eq. exact HNs. }
  destruct (spin_sync_post_loop sim y' (N_real sim))
    as ([Nspins' particles'] & E' & HNs' & HL' & HS');
    [lia | rewrite HL; exact Hroom |].
  cbn [fst snd] in HNs', HL', HS'.
  assert (Hsame : particles' = Sim.particles sim).
  { apply list_eq. intros i.
    destruct (Sim.particles sim !! i) as [p|] eqn:Hp.
    - rewrite (HS' i p Hp). f_equal.
      destruct (decide (i < N_real sim)%nat) as [Hi|Hi]; [|reflexivity].
      destruct (has_param "k2" p) eqn:Hk; [|reflexivity].
      rewrite (slots3_spin_at _ _ _ (HS i p Hi Hp Hk)).
      destruct (Hpres p (real_particle_lookup sim i p Hi Hp) Hk) as (Hx & Hy & Hz).
      apply with_spin_spin_of; assumption.
    - apply lookup_ge_None. apply lookup_ge_None in Hp. lia. }
  subst particles'. unfold rebx_spin_sync_post. rewrite E'.
  cbn [mbind option_bind]. rewrite set_particles_same.
  change (Ode.length (set_y y' ode)) with (Ode.length ode).
  apply checked_eq. exact HNs'.
Qed.

Lemma sync_pre_post_roundtrip_witness :
  exists y',
    rebx_spin_sync_pre tidal_sim (spin_ode 1) [] =
      Some (checked (spin_ode 1) (synced_count tidal_sim) 1 (set_y y' (spin_ode 1)))
    /\ rebx_spin_sync_post tidal_sim (set_y y' (spin_ode 1)) y' =
      Some (checked (spin_ode 1) (synced_count tidal_sim) 0 tidal_sim).
Proof.
  apply (sync_pre_post_roundtrip tidal_sim (spin_ode 1) [] tidal_sim_spins_present).
  vm_compute. lia.
Defined.

(** The pre-step call and the post-step call on the sample simulation. *)
Example sync_roundtrip_sample :
  rebx_spin_sync_pre tidal_sim (spin_ode 1) []
    = Some (Returned (set_y [0; 0; 1] (spin_ode 1)))
  /\ rebx_spin_sync_post tidal_sim (spin_ode 1) [0; 0; 1]
    = Some (Returned
              (set_particles [with_spin (Vec3d.mk 0 0 1) tidal_body; primary_body]
                             tidal_sim)).
Proof. split; reflexivity. Qed.

Lemma count_filter_map {A : Type} (f : A -> bool) (l : list A) :
  length (List.filter f l) = length (List.filter (fun b : bool => b) (f <$> l)).
Proof.
  induction l as [|a l IH]; simpl; [reflexivity|].
  destruct (f a); simpl; rewrite IH; reflexivity.
Qed.

Lemma has_k2_with_spin (v : reb_vec3d) (p : reb_particle) :
  has_param "k2" (with_spin v p) = has_param "k2" p.
Proof.
  unfold has_param, with_spin, set_param, rebx_set_param_double, rebx_get_param.
  cbn [ap set_ap]. rewrite !lookup_insert_ne by discriminate. reflexivity.
Qed.

Lemma has_spin_with_spin (v : reb_vec3d) (p : reb_particle) :
  has_param "sx" (with_spin v p) = true /\ has_param "sy" (with_spin v p) = true
  /\ has_param "sz" (with_spin v p) = true.
Proof.
  unfold with_spin, set_param, rebx_set_param_double.
  repeat split; apply has_param_true; unfold rebx_get_param; cbn [ap set_ap];
    repeat (rewrite lookup_insert_eq || rewrite lookup_insert_ne by discriminate);
    eauto.
Qed.

Lemma spin_at_slots3 (a : list R) (k : nat) :
  (3 * k + 2 < length a)%nat -> slots3 a (3 * k) = Some (spin_at a k).
Proof.
  intros Hk. apply slots3_Some. unfold spin_at. cbn [Vec3d.x Vec3d.y Vec3d.z].
  destruct (lookup_lt_is_Some_2 a (3 * k)) as [v0 H0]; [lia|].
  destruct (lookup_lt_is_Some_2 a (3 * k + 1)) as [v1 H1]; [lia|].
  destruct (lookup_lt_is_Some_2 a (3 * k + 2)) as [v2 H2]; [lia|].
  rewrite H0, H1, H2. repeat split.
Qed.

(** The state the post-step loop leaves has the same bodies with [k2], in
    the same order. *)
Lemma sync_rank_after_post (sim : reb_simulation) (y0 : list R)
    (particles' : list reb_particle) (n : nat) :
  length particles' = length (Sim.particles sim) ->
  (forall i p, Sim.particles sim !! i = Some p ->
     particles' !! i =
     Some (if decide (i < N_real sim)%nat
           then if has_param "k2" p
                then with_spin (spin_at y0 (sync_rank sim i)) p
                else p
           else p)) ->
  sync_rank (set_particles particles' sim) n = sync_rank sim n.
Proof.
  intros HL HS. unfold sync_rank. cbn [Sim.particles set_particles].
  rewrite (count_filter_map (has_param "k2") (take n particles')).
  rewrite (count_filter_map (has_param "k2") (take n (Sim.particles sim))).
  rewrite !fmap_take. do 3 f_equal.
  apply list_eq. intros i. rewrite !list_lookup_fmap.
  destruct (Sim.particles sim !! i) as [p|] eqn:Hp.
  - rewrite (HS i p Hp). simpl. f_equal.
    destruct (decide (i < N_real sim)%nat); [|reflexivity].
    destruct (has_param "k2" p) eqn:Hk; [|exact Hk].
    rewrite has_k2_with_spin. exact Hk.
  - apply lookup_ge_None in Hp.
    rewrite (proj2 (lookup_ge_None particles' i)) by lia. reflexivity.
Qed.


(** X17: round trip the other way.  The post-step call creates the spin
    tags it writes, so a pre-step call that follows is defined whatever tags
    the bodies had, and it copies back to the slots of every real body with
    [k2] the values the post-step call has read there. *)
Theorem sync_post_pre_roundtrip (sim : reb_simulation) (ode : reb_ode) (y0 y1 : list R) :
  (3 * synced_count sim <= length y0)%nat ->
  (3 * synced_count sim <= length (Ode.y ode))%nat ->
  exists particles' y',
    rebx_spin_sync_post sim ode y0 =
      Some (checked ode (synced_count sim) 0 (set_particles particles' sim))
    /\ rebx_spin_sync_pre (set_particles particles' sim) ode y1 =
      Some (checked ode (synced_count sim) 1 (set_y y' ode))
    /\ forall i p, (i < N_real sim)%nat -> Sim.particles sim !! i = Some p ->
         has_param "k2" p = true ->
         slots3 y' (3 * sync_rank sim i) = slots3 y0 (3 * sync_rank sim i).
Proof.
  intros Hroom0 Hroom.
  destruct (spin_sync_post_loop sim y0 (N_real sim))
    as ([Nspins particles'] & E & HNs & HL & HS); [lia | exact Hroom0 |].
  cbn [fst snd] in HNs, HL, HS.
  assert (HNr : N_real (set_particles particles' sim) = N_real sim)
    by (unfold N_real; cbn [Sim.particles Sim.N_var set_particles]; lia).
  assert (Hrank : forall n, sync_rank (set_particles particles' sim) n = sync_rank sim n)
    by (intros n; apply (sync_rank_after_post sim y0); assumption).
  assert (Hcount : sync_rank sim (N_real sim) = synced_count sim) by reflexivity.
  assert (Hlen : (N_real sim <= length (Sim.particles sim))%nat)
    by (unfold N_real; lia).
  assert (Hafter : forall i p', (i < N_real sim)%nat ->
            Sim.particles (set_particles particles' sim) !! i = Some p' ->
            exists p, Sim.particles sim !! i = Some p
                      /\ p' = if has_param "k2" p
                              then with_spin (spin_at y0 (sync_rank sim i)) p
                              else p).
  { intros i p' Hi Hp'.
    destruct (lookup_lt_is_Some_2 (Sim.particles sim) i) as [p Hp]; [lia|].
    exists p. split; [exact Hp|].
    cbn [Sim.particles set_particles] in Hp'.
    rewrite (HS i p Hp) in Hp'. rewrite decide_True in Hp' by exact Hi.
    injection Hp' as <-. reflexivity. }
  destruct (spin_sync_pre_loop (set_particles particles' sim) (Ode.y ode)
              (N_real (set_particles particles' sim)))
    as ([Nspins' y'] & E' & HNs' & HL' & HS').
  { lia. }
  { rewrite Hrank, HNr, Hcount. exact Hroom. }
  { intros i p' Hi Hp' Hk'. rewrite HNr in Hi.
    destruct (Hafter i p' Hi Hp') as (p & Hp & ->).
    destruct (has_param "k2" p) eqn:Hk; [apply has_spin_with_spin | congruence]. }
  cbn [fst snd] in HNs', HL', HS'.
  exists particles', y'. split; [|split].
  - unfold rebx_spin_sync_post. rewrite E. apply checked_eq. exact HNs.
  - unfold rebx_spin_sync_pre. rewrite E'. apply checked_eq.
    rewrite HNs', Hrank, HNr. reflexivity.
  - intros i p Hi Hp Hk.
    assert (Hp' : Sim.particles (set_particles particles' sim) !! i
                  = Some (with_spin (spin_at y0 (sync_rank sim i)) p)).
    { cbn [Sim.particles set_particles]. rewrite (HS i p Hp).
      rewrite decide_True by exact Hi. rewrite Hk. reflexivity. }
    rewrite <- (Hrank i) at 1.
    rewrite (HS' i _ (eq_ind_r (fun n => (i < n)%nat) Hi HNr) Hp')
      by (rewrite has_k2_with_spin; exact Hk).
    rewrite spin_of_with_spin. symmetry. apply spin_at_slots3.
    pose proof (sync_rank_S sim i p Hp) as HrS. rewrite Hk in HrS.
    pose proof (sync_rank_mono sim (S i) (N_real sim) Hi). lia.
Qed.

Lemma sync_post_pre_roundtrip_witness :
  exists particles' y',
    rebx_spin_sync_post tidal_sim (spin_ode 1) [4; 5; 6] =
      Some (checked (spin_ode 1) (synced_count tidal_sim) 0
              (set_particles particles' tidal_sim))
    /\ rebx_spin_sync_pre (set_particles particles' tidal_sim) (spin_ode 1) [] =
      Some (checked (spin_ode 1) (synced_count tidal_sim) 1 (set_y y' (spin_ode 1)))
    /\ forall i p, (i < N_real tidal_sim)%nat -> Sim.particles tidal_sim !! i = Some p ->
         has_param "k2" p = true ->
         slots3 y' (3 * sync_rank tidal_sim i) = slots3 [4; 5; 6] (3 * sync_rank tidal_sim i).
Proof.
  apply (sync_post_pre_roundtrip tidal_sim (spin_ode 1) [4; 5; 6] []);
    vm_compute; lia.
Defined.

(** ** The spin derivative function *)

(** X18: the fatal path.  When the declared length of the ODE is not three
    times the number of real bodies with [k2] and [moi] (a tag was added or
    removed after the ODE was created) and the arrays have room for them, the
    derivative function reports the error and exits with status 1, after it
    has written the derivatives. *)
Theorem spin_derivatives_length_mismatch (sim : reb_simulation) (ode : reb_ode)
    (yDot y : list R) (t : R) :
  let K := length (List.filter spin_evolving (real_particles sim)) in
  Ode.length ode <> (3 * K)%nat ->
  (3 * K <= length y)%nat -> (3 * K <= length yDot)%nat ->
  exists yDot',
    rebx_spin_derivatives sim ode yDot y t =
      Some (Exited 1 [reb_error ode_length_error] yDot')
    /\ forall i pi, (i < N_real sim)%nat -> Sim.particles sim !! i = Some pi ->
         spin_evolving pi = true ->
         slots3 yDot' (3 * spin_rank sim i) = Some (spin_torque sim y i pi).
Proof.
  intros K Hne Hy HyDot.
  assert (Hrank : spin_rank sim (N_real sim) = K) by reflexivity.
  destruct (spin_derivatives_loop sim y yDot (N_real sim)) as ([Nspins yDot'] & E & Inv);
    [lia | lia | lia |].
  destruct Inv as (HN & HL & HS). cbn [fst snd] in HN, HL, HS.
  exists yDot'. split; [|exact HS].
  unfold rebx_spin_derivatives. rewrite E. simpl.
  rewrite decide_True by lia. reflexivity.
Qed.

Lemma spin_derivatives_length_mismatch_witness :
  let K := length (List.filter spin_evolving (real_particles tidal_sim)) in
  exists yDot',
    rebx_spin_derivatives tidal_sim long_ode [7; 7; 7] [0; 0; 1] 0 =
      Some (Exited 1 [reb_error ode_length_error] yDot')
    /\ forall i pi, (i < N_real tidal_sim)%nat -> Sim.particles tidal_sim !! i = Some pi ->
         spin_evolving pi = true ->
         slots3 yDot' (3 * spin_rank tidal_sim i) = Some (spin_torque tidal_sim [0; 0; 1] i pi).
Proof.
  apply (spin_derivatives_length_mismatch tidal_sim long_ode [7; 7; 7] [0; 0; 1] 0);
    vm_compute; lia.
Defined.

(** The sample pair is such a configuration. *)
Lemma tidal_pair_positive_masses : positive_masses (Sim.mk 1 0 tidal_pair []).
Proof.
  intros p Hp.
  change (p ∈ [structured_body; primary_body]) in Hp.
  apply elem_of_cons in Hp as [-> | Hp]; [simpl; lra|].
  apply elem_of_cons in Hp as [-> | Hp]; [simpl; lra|].
  apply elem_of_nil in Hp. destruct Hp.
Defined.

Lemma tidal_pair_distinct_positions : distinct_positions (Sim.mk 1 0 tidal_pair []).
Proof.
  intros i j p q Hij Hp Hq.
  change (real_particles (Sim.mk 1 0 tidal_pair []))
    with [structured_body; primary_body] in Hp, Hq.
  destruct i as [|[|i]], j as [|[|j]]; simpl in Hp, Hq; try discriminate;
    try congruence;
    injection Hp as <-; injection Hq as <-;
    intros H; apply (f_equal Vec3d.x) in H; simpl in H; lra.
Defined.

(** X19: without dissipation the spin keeps its magnitude.  When the real
    bodies have positive masses and distinct positions, for a body with
    [k2] and a nonzero [moi] whose [sigma] is absent or zero, the derivative
    written to its three slots is orthogonal to its spin in [y]. *)
Theorem spin_derivatives_orthogonal (sim : reb_simulation) (ode : reb_ode)
    (yDot y : list R) (t : R) :
  positive_masses sim -> distinct_positions sim ->
  Ode.length ode = (3 * length (List.filter spin_evolving (real_particles sim)))%nat ->
  (Ode.length ode <= length y)%nat -> (Ode.length ode <= length yDot)%nat ->
  exists yDot',
    rebx_spin_derivatives sim ode yDot y t = Some (Returned yDot')
    /\ forall i pi, (i < N_real sim)%nat -> Sim.particles sim !! i = Some pi ->
         spin_evolving pi = true ->
         default 0 (rebx_get_param (ap pi) "moi") <> 0 ->
         default 0 (rebx_get_param (ap pi) "sigma") = 0 ->
         exists dOmega,
           slots3 yDot' (3 * spin_rank sim i) = Some dOmega
           /\ vdot (spin_at y (spin_rank sim i)) dOmega = 0.
Proof.
  intros _ _ Hode Hy HyDot.
  assert (Hrank : spin_rank sim (N_real sim) =
                  length (List.filter spin_evolving (real_particles sim)))
    by reflexivity.
  destruct (spin_derivatives_loop sim y yDot (N_real sim)) as ([Nspins yDot'] & E & Inv);
    [lia | lia | lia |].
  destruct Inv as (HN & HL & HS). cbn [fst snd] in HN, HL, HS.
  exists yDot'. split.
  - unfold rebx_spin_derivatives. rewrite E. simpl.
    rewrite decide_False by lia. reflexivity.
  - intros i pi Hi Hpi He _ Hsigma. eexists. split; [apply HS; eassumption|].
    unfold spin_torque. cbv zeta. rewrite Hsigma.
    apply vdot_vsum_zero. apply Forall_map, Forall_forall.
    intros pj _. apply pair_torque_orthogonal.
Qed.

Lemma spin_derivatives_orthogonal_witness :
  exists yDot',
    rebx_spin_derivatives (Sim.mk 1 0 tidal_pair []) (spin_ode 1) [7; 7; 7] [1; 2; 3] 0
      = Some (Returned yDot')
    /\ forall i pi, (i < N_real (Sim.mk 1 0 tidal_pair []))%nat ->
         Sim.particles (Sim.mk 1 0 tidal_pair []) !! i = Some pi ->
         spin_evolving pi = true ->
         default 0 (rebx_get_param (ap pi) "moi") <> 0 ->
         default 0 (rebx_get_param (ap pi) "sigma") = 0 ->
         exists dOmega,
           slots3 yDot' (3 * spin_rank (Sim.mk 1 0 tidal_pair []) i) = Some dOmega
           /\ vdot (spin_at [1; 2; 3] (spin_rank (Sim.mk 1 0 tidal_pair []) i)) dOmega = 0.
Proof.
  apply (spin_derivatives_orthogonal (Sim.mk 1 0 tidal_pair []) (spin_ode 1)
           [7; 7; 7] [1; 2; 3] 0);
    [exact tidal_pair_positive_masses | exact tidal_pair_distinct_positions
    | reflexivity | simpl; lia | simpl; lia].
Defined.

Lemma array_add_length (a a' : list R) (i : nat) (v : R) :
  array_add a i v = Some a' -> length a' = length a.
Proof.
  unfold array_add. destruct (a !! i); simpl; [|discriminate].
  intros H. injection H as <-. apply length_insert.
Qed.

Lemma array_set_inv (a a' : list R) (i : nat) (v : R) :
  array_set a i v = Some a' -> (i < length a)%nat /\ length a' = length a.
Proof.
  unfold array_set. destruct (decide (i < length a)%nat); [|discriminate].
  intros H. injection H as <-. split; [assumption | apply length_insert].
Qed.

Lemma spin_derivatives_pair_length (particles : list reb_particle) (G : R) (i : nat)
    (pi : reb_particle) (k2 sigma_in moi sx sy sz : R) (Nspins : nat)
    (yDot yDot' : list R) (j : nat) :
  spin_derivatives_pair particles G i pi k2 sigma_in moi sx sy sz Nspins yDot j
  = Some yDot' ->
  length yDot' = length yDot.
Proof.
  unfold spin_derivatives_pair.
  destruct (decide (i <> j)); [|intros H; injection H as <-; reflexivity].
  destruct (particles !! j) as [pj|]; simpl; [|discriminate]. cbv zeta.
  intros H.
  apply bind_Some in H as (a1 & H1 & H).
  apply bind_Some in H as (a2 & H2 & H3).
  apply array_add_length in H1, H2, H3. congruence.
Qed.

Lemma for_each_length {B : Type} (body : list R -> B -> option (list R))
    (js : list B) (a a' : list R) :
  (forall a a' j, body a j = Some a' -> length a' = length a) ->
  for_each body a js = Some a' -> length a' = length a.
Proof.
  intros Hbody. revert a. induction js as [|j js IH]; intros a; simpl.
  - intros H. injection H as <-. reflexivity.
  - intros H. apply bind_Some in H as (a1 & H1 & H2).
    rewrite (IH _ H2). apply (Hbody _ _ _ H1).
Qed.

(** A round of the outer loop that does not fail has found room for the
    slots of the body. *)
Lemma spin_derivatives_body_room (sim : reb_simulation) (y : list R) (n : nat)
    (pi : reb_particle) (Nspins Nspins' : nat) (yDot yDot' : list R) :
  Sim.particles sim !! n = Some pi ->
  spin_derivatives_body sim y (Nspins, yDot) n = Some (Nspins', yDot') ->
  length yDot' = length yDot
  /\ Nspins' = (Nspins + (if spin_evolving pi then 1 else 0))%nat
  /\ ((3 * Nspins <= length yDot)%nat -> (3 * Nspins' <= length yDot)%nat).
Proof.
  intros Hpi. unfold spin_derivatives_body. rewrite Hpi. simpl. cbv zeta.
  destruct (rebx_get_param (ap pi) "k2") as [k2|] eqn:Hk2;
    [destruct (rebx_get_param (ap pi) "moi") as [moi|] eqn:Hmoi|].
  - assert (He : spin_evolving pi = true)
      by (apply spin_evolving_params; rewrite Hk2, Hmoi; eauto).
    rewrite He. intros H.
    apply bind_Some in H as (a1 & H1 & H).
    apply bind_Some in H as (a2 & H2 & H).
    apply bind_Some in H as (a3 & H3 & H).
    apply bind_Some in H as (sx & _ & H).
    apply bind_Some in H as (sy & _ & H).
    apply bind_Some in H as (sz & _ & H).
    apply bind_Some in H as (a4 & H4 & H).
    injection H as <- <-.
    apply array_set_inv in H1 as [_ L1].
    apply array_set_inv in H2 as [_ L2].
    apply array_set_inv in H3 as [B3 L3].
    apply for_each_length in H4;
      [|intros ? ? ?; apply spin_derivatives_pair_length].
    repeat split; [congruence | lia].
  - assert (He : spin_evolving pi = false).
    { apply not_true_is_false. intros He.
      apply spin_evolving_params in He as [_ [? He]]. congruence. }
    rewrite He. intros H. injection H as <- <-. repeat split; lia.
  - assert (He : spin_evolving pi = false).
    { apply not_true_is_false. intros He.
      apply spin_evolving_params in He as [[? He] _]. congruence. }
    rewrite He. intros H. injection H as <- <-. repeat split; lia.
Qed.

Lemma spin_derivatives_loop_room (sim : reb_simulation) (y yDot0 : list R) (n : nat)
    (st : nat * list R) :
  (n <= N_real sim)%nat ->
  for_each (spin_derivatives_body sim y) (0%nat, yDot0) (seq 0 n) = Some st ->
  st.1 = spin_rank sim n /\ length st.2 = length yDot0
  /\ (3 * st.1 <= length yDot0)%nat.
Proof.
  revert st. induction n as [|n IH]; intros st Hn.
  - simpl. intros H. injection H as <-. simpl.
    unfold spin_rank. rewrite take_0. simpl. repeat split; lia.
  - rewrite seq_S, for_each_app. intros H.
    apply bind_Some in H as ([N0 a0] & H0 & H1).
    destruct (IH _ ltac:(lia) H0) as (HN & HL & HR). cbn [fst snd] in HN, HL, HR.
    simpl in H1. apply bind_Some in H1 as ([N1 a1] & H1 & H2).
    injection H2 as <-.
    assert (Hlen : (N_real sim <= length (Sim.particles sim))%nat)
      by (unfold N_real; lia).
    destruct (lookup_lt_is_Some_2 (Sim.particles sim) n) as [pi Hpi]; [lia|].
    destruct (spin_derivatives_body_room sim y n pi N0 N1 a0 a1 Hpi H1)
      as (L & HN1 & HR1).
    cbn [fst snd]. rewrite (spin_rank_S sim n pi Hpi).
    repeat split; [lia | congruence | rewrite <- HL; apply HR1; lia].
Qed.

(** X20: the length check comes after the loop.  When the array [yDot] is
    shorter than three slots for each real body with [k2] and [moi], the
    derivative function writes beyond its end before it can report the
    mismatch: the call is undefined. *)
Theorem spin_derivatives_overflow (sim : reb_simulation) (ode : reb_ode)
    (yDot y : list R) (t : R) :
  (length yDot < 3 * length (List.filter spin_evolving (real_particles sim)))%nat ->
  rebx_spin_derivatives sim ode yDot y t = None.
Proof.
  intros Hshort. unfold rebx_spin_derivatives.
  destruct (for_each (spin_derivatives_body sim y) (0%nat, yDot) (seq 0 (N_real sim)))
    as [st|] eqn:E; [|reflexivity].
  destruct (spin_derivatives_loop_room sim y yDot (N_real sim) st (le_n _) E)
    as (HN & _ & HR).
  rewrite HN in HR.
  change (spin_rank sim (N_real sim))
    with (length (List.filter spin_evolving (real_particles sim))) in HR.
  lia.
Qed.

Lemma spin_derivatives_overflow_witness :
  rebx_spin_derivatives tidal_sim (spin_ode 1) [7; 7] [0; 0; 1] 0 = None.
Proof.
  apply (spin_derivatives_overflow tidal_sim (spin_ode 1) [7; 7] [0; 0; 1] 0).
  vm_compute. lia.
Defined.

(** ** Vectors that are too short for the synchronizer *)

Lemma spin_sync_pre_body_room (sim : reb_simulation) (n : nat) (p : reb_particle)
    (Nspins Nspins' : nat) (a a' : list R) :
  Sim.particles sim !! n = Some p ->
  spin_sync_pre_body sim (Nspins, a) n = Some (Nspins', a') ->
  length a' = length a
  /\ Nspins' = (Nspins + (if has_param "k2" p then 1 else 0))%nat
  /\ ((3 * Nspins <= length a)%nat -> (3 * Nspins' <= length a)%nat).
Proof.
  intros Hp. unfold spin_sync_pre_body. rewrite Hp. simpl. cbv zeta.
  destruct (rebx_get_param (ap p) "k2") as [k2|] eqn:Hk2.
  - assert (Hk : has_param "k2" p = true) by (apply has_param_true; rewrite Hk2; eauto).
    rewrite Hk. intros H.
    apply bind_Some in H as (sx & _ & H).
    apply bind_Some in H as (a1 & H1 & H).
    apply bind_Some in H as (sy & _ & H).
    apply bind_Some in H as (a2 & H2 & H).
    apply bind_Some in H as (sz & _ & H).
    apply bind_Some in H as (a3 & H3 & H).
    injection H as <- <-.
    apply array_set_inv in H1 as [_ L1].
    apply array_set_inv in H2 as [_ L2].
    apply array_set_inv in H3 as [B3 L3].
    repeat split; [congruence | lia].
  - assert (Hk : has_param "k2" p = false) by (apply has_param_false; exact Hk2).
    rewrite Hk. intros H. injection H as <- <-. repeat split; lia.
Qed.

Lemma spin_sync_pre_loop_room (sim : reb_simulation) (y_start : list R) (n : nat)
    (st : nat * list R) :
  (n <= N_real sim)%nat ->
  for_each (spin_sync_pre_body sim) (0%nat, y_start) (seq 0 n) = Some st ->
  st.1 = sync_rank sim n /\ length st.2 = length y_start
  /\ (3 * st.1 <= length y_start)%nat.
Proof.
  revert st. induction n as [|n IH]; intros st Hn.
  - simpl. intros H. injection H as <-. simpl.
    unfold sync_rank. rewrite take_0. simpl. repeat split; lia.
  - rewrite seq_S, for_each_app. intros H.
    apply bind_Some in H as ([N0 a0] & H0 & H1).
    destruct (IH _ ltac:(lia) H0) as (HN & HL & HR). cbn [fst snd] in HN, HL, HR.
    simpl in H1. apply bind_Some in H1 as ([N1 a1] & H1 & H2).
    injection H2 as <-.
    assert (Hlen : (N_real sim <= length (Sim.particles sim))%nat)
      by (unfold N_real; lia).
    destruct (lookup_lt_is_Some_2 (Sim.particles sim) n) as [p Hp]; [lia|].
    destruct (spin_sync_pre_body_room sim n p N0 N1 a0 a1 Hp H1) as (L & HN1 & HR1).
    cbn [fst snd]. rewrite (sync_rank_S sim n p Hp).
    repeat split; [lia | congruence | rewrite <- HL; apply HR1; lia].
Qed.

(** A round of the post-step loop that does not fail keeps the invariant and
    has found the three slots it reads. *)
Lemma spin_sync_post_body_room (sim : reb_simulation) (y0 : list R) (n : nat)
    (st st' : nat * list reb_particle) :
  (n < N_real sim)%nat ->
  sync_post_invariant sim y0 n st ->
  spin_sync_post_body y0 st n = Some st' ->
  sync_post_invariant sim y0 (S n) st'
  /\ ((3 * st.1 <= length y0)%nat -> (3 * st'.1 <= length y0)%nat).
Proof.
  intros Hn. destruct st as [Nspins cur]. intros (HN & HL & HS).
  cbn [fst snd] in HN, HL, HS. subst Nspins.
  assert (Hlen : (N_real sim <= length (Sim.particles sim))%nat)
    by (unfold N_real; lia).
  destruct (lookup_lt_is_Some_2 (Sim.particles sim) n) as [p Hp]; [lia|].
  pose proof (sync_rank_S sim n p Hp) as HrS.
  pose proof (HS n p Hp) as Hcur. rewrite decide_False in Hcur by lia.
  unfold spin_sync_post_body. rewrite Hcur.
  set (b := (3 * sync_rank sim n)%nat) in *. simpl. cbv zeta.
  destruct (rebx_get_param (ap p) "k2") as [k2|] eqn:Hk2.
  - assert (Hk : has_param "k2" p = true) by (apply has_param_true; rewrite Hk2; eauto).
    rewrite Hk in HrS. unfold array_get. intros H.
    apply bind_Some in H as (vx & Hvx & H).
    apply bind_Some in H as (vy & Hvy & H).
    apply bind_Some in H as (vz & Hvz & H).
    injection H as <-. cbn [fst snd].
    pose proof (lookup_lt_Some _ _ _ Hvz) as Hroom.
    split; [|unfold b in Hroom; lia].
    split; [simpl; lia|]. split; [cbn [snd]; rewrite !length_alter; exact HL|].
    intros i p' Hp'. cbn [fst snd].
    destruct (decide (i = n)) as [->|Hne].
    + rewrite Hp in Hp'. injection Hp' as <-.
      rewrite decide_True by lia. rewrite Hk.
      rewrite !list_lookup_alter_eq, Hcur. simpl.
      unfold with_spin, spin_at. fold b. rewrite Hvx, Hvy, Hvz. reflexivity.
    + rewrite !list_lookup_alter_ne by congruence.
      rewrite (HS i p' Hp').
      destruct (decide (i < n)%nat), (decide (i < S n)%nat); try lia; reflexivity.
  - assert (Hk : has_param "k2" p = false) by (apply has_param_false; exact Hk2).
    rewrite Hk in HrS. intros H. injection H as <-. cbn [fst snd].
    split; [|lia].
    split; [simpl; lia|]. split; [exact HL|].
    intros i p' Hp'. cbn [fst snd]. rewrite (HS i p' Hp').
    destruct (decide (i = n)) as [->|Hne].
    + rewrite Hp in Hp'. injection Hp' as <-.
      rewrite decide_False by lia. rewrite decide_True by lia. rewrite Hk.
      reflexivity.
    + destruct (decide (i < n)%nat), (decide (i < S n)%nat); try lia; reflexivity.
Qed.

Lemma spin_sync_post_loop_room (sim : reb_simulation) (y0 : list R) (n : nat)
    (st : nat * list reb_particle) :
  (n <= N_real sim)%nat ->
  for_each (spin_sync_post_body y0) (0%nat, Sim.particles sim) (seq 0 n) = Some st ->
  sync_post_invariant sim y0 n st /\ (3 * st.1 <= length y0)%nat.
Proof.
  revert st. induction n as [|n IH]; intros st Hn.
  - simpl. intros H. injection H as <-. split; [|simpl; lia].
    split; [unfold sync_rank; rewrite take_0; reflexivity|].
    split; [reflexivity|]. intros i p Hp. cbn [fst snd].
    rewrite decide_False by lia. exact Hp.
  - rewrite seq_S, for_each_app. intros H.
    apply bind_Some in H as (st0 & H0 & H1).
    destruct (IH _ ltac:(lia) H0) as (Inv & HR).
    simpl in H1. apply bind_Some in H1 as (st1 & H1 & H2).
    injection H2 as <-.
    destruct (spin_sync_post_body_room sim y0 n st0 st1 ltac:(lia) Inv H1)
      as (Inv' & HR').
    split; [exact Inv' | apply HR', HR].
Qed.

(** X21: the length check cannot protect the vectors, because it comes after
    the loop.  The pre-step call is undefined when the working vector of the
    ODE has fewer than three slots for each real body with [k2] (it writes
    beyond the end), and so is the post-step call when [y0] has (it reads
    beyond the end). *)
Theorem sync_overflow (sim : reb_simulation) (ode : reb_ode) (y0 : list R) :
  ((length (Ode.y ode) < 3 * synced_count sim)%nat ->
   rebx_spin_sync_pre sim ode y0 = None)
  /\ ((length y0 < 3 * synced_count sim)%nat ->
      rebx_spin_sync_post sim ode y0 = None).
Proof.
  split; intros Hshort.
  - unfold rebx_spin_sync_pre.
    destruct (for_each (spin_sync_pre_body sim) (0%nat, Ode.y ode) (seq 0 (N_real sim)))
      as [st|] eqn:E; [|reflexivity].
    destruct (spin_sync_pre_loop_room sim (Ode.y ode) (N_real sim) st (le_n _) E)
      as (HN & _ & HR).
    rewrite HN in HR.
    change (sync_rank sim (N_real sim)) with (synced_count sim) in HR. lia.
  - unfold rebx_spin_sync_post.
    destruct (for_each (spin_sync_post_body y0) (0%nat, Sim.particles sim)
                (seq 0 (N_real sim))) as [st|] eqn:E; [|reflexivity].
    destruct (spin_sync_post_loop_room sim y0 (N_real sim) st (le_n _) E)
      as ((HN & _) & HR).
    rewrite HN in HR.
    change (sync_rank sim (N_real sim)) with (synced_count sim) in HR. lia.
Qed.

Lemma sync_overflow_witness :
  rebx_spin_sync_pre tidal_sim (Ode.mk 3 [0; 0] None None None None) [] = None
  /\ rebx_spin_sync_post tidal_sim (spin_ode 1) [4; 5] = None.
Proof.
  destruct (sync_overflow tidal_sim (Ode.mk 3 [0; 0] None None None None) [])
    as [Hpre _].
  destruct (sync_overflow tidal_sim (spin_ode 1) [4; 5]) as [_ Hpost].
  split; [apply Hpre | apply Hpost]; vm_compute; lia.
Defined.

(** ** The ODE and its callbacks together *)

Lemma consistent_evolving (sim : reb_simulation) (n : nat) :
  consistent_tags sim -> (n <= N_real sim)%nat ->
  spin_rank sim n = tracked_rank sim n.
Proof.
  intros Hc Hn. unfold spin_rank, tracked_rank. f_equal.
  apply List.filter_ext_in. intros p Hin.
  assert (Hk : has_param "k2" p = spin_tracked p).
  { apply Hc. apply list_elem_of_In in Hin. unfold real_particles.
    apply elem_of_take in Hin as (i & Hi & Hlt).
    apply elem_of_take. exists i. split; [exact Hi | lia]. }
  unfold spin_evolving. rewrite Hk. unfold spin_tracked.
  destruct (has_param "moi" p), (has_param "sx" p), (has_param "sy" p),
    (has_param "sz" p); reflexivity.
Qed.

(** X22: the ODE that [rebx_spin_initialize_ode] creates is accepted by its
    three callbacks.  When the real bodies with [k2] are those with [moi],
    [sx], [sy], [sz] and there is one at least, the call registers an ODE on
    which the pre-step call, the derivative function and the post-step call
    all pass the length check and return. *)
Theorem created_ode_accepted (rebx : rebx_extras) (effect : rebx_force)
    (sim : reb_simulation) (y0 yDot y : list R) (t : R) :
  Extras.sim rebx = Some sim -> consistent_tags sim ->
  let N := length (List.filter spin_tracked (real_particles sim)) in
  (0 < N)%nat ->
  (3 * N <= length y0)%nat -> (3 * N <= length yDot)%nat -> (3 * N <= length y)%nat ->
  exists sim' effect',
    rebx_spin_initialize_ode rebx effect = Some (Extras.mk (Some sim'), effect')
    /\ last (Sim.odes sim') = Some (spin_ode N)
    /\ (exists y', rebx_spin_sync_pre sim' (spin_ode N) y0
                   = Some (Returned (set_y y' (spin_ode N))))
    /\ (exists yDot', rebx_spin_derivatives sim' (spin_ode N) yDot y t
                      = Some (Returned yDot'))
    /\ (exists particles', rebx_spin_sync_post sim' (spin_ode N) y0
                           = Some (Returned (set_particles particles' sim'))).
Proof.
  intros Hsim Hc N HN Hy0 HyDot Hy.
  set (sim' := set_odes (Sim.odes sim ++ [spin_ode N]) sim).
  assert (Hc' : consistent_tags sim') by exact Hc.
  assert (HK : sync_rank sim' (N_real sim') = N)
    by (rewrite consistent_ranks by (assumption || lia); reflexivity).
  assert (HE : spin_rank sim' (N_real sim') = N)
    by (rewrite consistent_evolving by (assumption || lia); reflexivity).
  exists sim', (Force.mk (<["ode" := length (Sim.odes sim)]> (Force.ap effect))).
  split; [|split; [|split; [|split]]].
  - rewrite (initialize_ode_result rebx effect sim Hsim). cbv zeta. fold N.
    rewrite decide_True by exact HN. reflexivity.
  - unfold sim', set_odes. cbn [Sim.odes]. apply last_snoc.
  - destruct (spin_sync_pre_loop sim' (Ode.y (spin_ode N)) (N_real sim'))
      as ([Nspins y'] & E & HNs & _ & _).
    + lia.
    + rewrite HK. unfold spin_ode. cbn [Ode.y]. rewrite length_replicate. lia.
    + intros i p Hi Hp Hk. apply spin_tracked_tags.
      rewrite <- (Hc' p (real_particle_lookup sim' i p Hi Hp)). exact Hk.
    + cbn [fst snd] in HNs. exists y'.
      unfold rebx_spin_sync_pre. rewrite E.
      transitivity (Some (checked (spin_ode N) N 1 (set_y y' (spin_ode N))));
        [apply checked_eq; congruence|].
      unfold checked. rewrite decide_True by reflexivity. reflexivity.
  - destruct (spin_derivatives_loop sim' y yDot (N_real sim'))
      as ([Nspins yDot'] & E & HNs & _ & _); [lia | lia | lia |].
    cbn [fst snd] in HNs. exists yDot'.
    unfold rebx_spin_derivatives. rewrite E. simpl.
    rewrite decide_False; [reflexivity|]. rewrite HNs, HE. lia.
  - destruct (spin_sync_post_loop sim' y0 (N_real sim'))
      as ([Nspins particles'] & E & HNs & _ & _); [lia | lia |].
    cbn [fst snd] in HNs. exists particles'.
    unfold rebx_spin_sync_post. rewrite E.
    transitivity (Some (checked (spin_ode N) N 0 (set_particles particles' sim')));
      [apply checked_eq; congruence|].
    unfold checked. rewrite decide_True by reflexivity. reflexivity.
Qed.

Lemma created_ode_accepted_witness :
  let N := length (List.filter spin_tracked (real_particles tidal_sim)) in
  exists sim' effect',
    rebx_spin_initialize_ode tidal_rebx (Force.mk ∅) =
      Some (Extras.mk (Some sim'), effect')
    /\ last (Sim.odes sim') = Some (spin_ode N)
    /\ (exists y', rebx_spin_sync_pre sim' (spin_ode N) [4; 5; 6]
                   = Some (Returned (set_y y' (spin_ode N))))
    /\ (exists yDot', rebx_spin_derivatives sim' (spin_ode N) [7; 7; 7] [0; 0; 1] 0
                      = Some (Returned yDot'))
    /\ (exists particles', rebx_spin_sync_post sim' (spin_ode N) [4; 5; 6]
                           = Some (Returned (set_particles particles' sim'))).
Proof.
  apply (created_ode_accepted tidal_rebx (Force.mk ∅) tidal_sim [4; 5; 6] [7; 7; 7]
           [0; 0; 1] 0 eq_refl tidal_sim_consistent); vm_compute; lia.
Defined.
